(** * mcp-nano-banana: the request/response translation layer

    A shallow embedding of [src/client.ts] and [src/tools/images.ts]:
    the endpoint client, the response extractor, the file helpers, the
    tool-result formatter, the input schemas and the four tool handlers;
    then the vocabulary the specification is read in, and the
    properties of the specification, each against the code.

    Conventions.
    - A JavaScript value that may be [undefined] is an [option]; [None]
      is [undefined].
    - JavaScript numbers that occur here (HTTP statuses, error codes,
      millisecond timestamps, numbers in a JSON body) are integers and
      are modelled in [Z]. A number of a JSON body is the double nearest
      to the integer written, and [Number_toString] prints it as
      JavaScript does; below 2^53 that is its decimal digits.
    - Strings are sequences of bytes; case conversion is the ASCII one.
    - Code that throws or touches the file system, the clock or the
      network runs in the monad [M]: a state monad over [World] whose
      result is either a value or a thrown [JsError]. An [async]
      function that awaits one promise after the other is sequential
      code in [M].
    - The functions of Node.js whose result depends on the platform are
      the fields of [NodeRuntime]; every property holds for every
      runtime, and [Posix.runtime] is the one the code is run on in the
      examples. *)

From stdpp Require Import gmap strings list pretty.
From Stdlib Require Import ZArith Strings.Byte Strings.Ascii.

Local Open Scope Z_scope.
Local Open Scope string_scope.

(** ** JavaScript values as produced by [JSON.parse] *)

Module JS.

#[local] Set Warnings "-register-all".

Inductive json : Type :=
| JNull
| JBool (b : bool)
| JNum (n : Z)
| JStr (s : string)
| JArr (items : list json)
| JObj (fields : list (string * json)).

(** A value or [undefined]. *)
Definition value : Type := option json.

(** [ToBoolean]. *)
Definition truthy (v : value) : bool :=
  match v with
  | None => false
  | Some JNull => false
  | Some (JBool b) => b
  | Some (JNum n) => negb (Z.eqb n 0)
  | Some (JStr s) => negb (String.eqb s "")
  | Some (JArr _) => true
  | Some (JObj _) => true
  end.

(** Truthiness of an optional string field ([if (part.text)]). *)
Definition truthy_str (s : option string) : bool :=
  match s with
  | Some t => negb (String.eqb t "")
  | None => false
  end.

(** Truthiness of an optional number ([code || 500]). *)
Definition truthy_num (n : option Z) : bool :=
  match n with
  | Some z => negb (Z.eqb z 0)
  | None => false
  end.

(** [if (s) yes(s) else no], for a string that may be missing. *)
Definition if_str {A} (s : option string) (yes : string -> A) (no : A) : A :=
  match s with
  | Some t => if truthy_str (Some t) then yes t else no
  | None => no
  end.

(** [n || fallback], for a number that may be missing. *)
Definition num_or (n : option Z) (fallback : Z) : Z :=
  match n with
  | Some z => if truthy_num (Some z) then z else fallback
  | None => fallback
  end.

(** [a || b]. *)
Definition or_else (a b : value) : value := if truthy a then a else b.

(** Own-property lookup in an object literal; the first binding of a key
    is the property. *)
Fixpoint lookup_field (k : string) (fields : list (string * json)) : value :=
  match fields with
  | [] => None
  | (k', v) :: rest => if String.eqb k k' then Some v else lookup_field k rest
  end.

(** *** [Number::toString] on integers

    A JSON number literal denotes the double nearest to it, ties to
    even; that double prints as the shortest decimal that denotes it, in
    positional notation up to 21 digits and in exponent notation
    beyond. *)

(** The double nearest to a non-negative integer; [2^1024] and above
    stand for [Infinity]. *)
Definition nearest_double (n : Z) : Z :=
  let e := Z.log2 n - 52 in
  if Z.leb e 0 then n
  else
    let q := Z.shiftr n e in
    let r := n - Z.shiftl q e in
    let half := Z.shiftl 1 (e - 1) in
    Z.shiftl (if Z.ltb half r || (Z.eqb r half && Z.odd q) then q + 1 else q) e.

Definition digits_of (v : Z) : Z := Z.of_nat (String.length (pretty v)).

(** The decimals of [k] significant digits next to [x] that denote [x]:
    the closer one, the even one on a tie. *)
Definition with_digits (x k : Z) : option Z :=
  let scale := 10 ^ (digits_of x - k) in
  let lo := (x / scale) * scale in
  let hi := lo + scale in
  match Z.eqb (nearest_double lo) x, Z.eqb (nearest_double hi) x with
  | true, true =>
      if Z.ltb (x - lo) (hi - x) then Some lo
      else if Z.ltb (hi - x) (x - lo) then Some hi
      else if Z.even (lo / scale) then Some lo else Some hi
  | true, false => Some lo
  | false, true => Some hi
  | false, false => None
  end.

(** The shortest decimal that denotes [x], searched from one digit up;
    seventeen digits always suffice. *)
Fixpoint shortest (x k : Z) (fuel : nat) : Z :=
  match fuel with
  | O => x
  | S fuel' =>
      match with_digits x k with
      | Some v => v
      | None => shortest x (k + 1) fuel'
      end
  end.

Fixpoint drop_zeros (l : list ascii) : list ascii :=
  match l with
  | c :: rest => if Ascii.eqb c "0"%char then drop_zeros rest else l
  | [] => []
  end.

(** The digits of a decimal without its trailing zeros. *)
Definition significant (s : string) : string :=
  String.string_of_list_ascii (rev (drop_zeros (rev (String.list_ascii_of_string s)))).

(** A positive decimal, as [Number::toString] lays it out. *)
Definition layout (v : Z) : string :=
  let s := pretty v in
  if (String.length s <=? 21)%nat then s
  else
    match significant s with
    | String c EmptyString => String c ("e+" +:+ pretty (digits_of v - 1))
    | String c rest => String c ("." +:+ rest +:+ "e+" +:+ pretty (digits_of v - 1))
    | EmptyString => s
    end.

Definition Number_toString (n : Z) : string :=
  if Z.ltb (Z.abs n) (2 ^ 53) then pretty n
  else
    let x := nearest_double (Z.abs n) in
    (if Z.ltb n 0 then "-" else "") +:+
    (if Z.leb (2 ^ 1024) x then "Infinity" else layout (shortest x 1 17)).

(** *** [ToString]

    [ToString], as a template literal applies it; [None] when it throws.
    An object converts through [Object.prototype.toString] unless it has
    a property [toString] of its own: a property of a parsed body is
    never callable, and the conversion then ends in a [TypeError]. An
    array converts through [join]: elements that are [null] print as the
    empty string, the others through [ToString]. *)
Fixpoint to_string (v : json) : option string :=
  match v with
  | JNull => Some "null"
  | JBool true => Some "true"
  | JBool false => Some "false"
  | JNum n => Some (Number_toString n)
  | JStr s => Some s
  | JArr items =>
      match
        (fix each (l : list json) : option (list string) :=
           match l with
           | [] => Some []
           | x :: l' =>
               match match x with JNull => Some "" | _ => to_string x end with
               | Some s =>
                   match each l' with
                   | Some ss => Some (s :: ss)
                   | None => None
                   end
               | None => None
               end
           end) items
      with
      | Some ss => Some (String.concat "," ss)
      | None => None
      end
  | JObj fields =>
      match lookup_field "toString" fields with
      | Some _ => None
      | None => Some "[object Object]"
      end
  end.

Definition value_to_string (v : value) : option string :=
  match v with
  | None => Some "undefined"
  | Some j => to_string j
  end.

(** [String.prototype.toLowerCase] on ASCII text. *)
Definition lower_ascii (c : ascii) : ascii :=
  let n := nat_of_ascii c in
  if ((65 <=? n) && (n <=? 90))%nat then ascii_of_nat (n + 32) else c.

Fixpoint toLowerCase (s : string) : string :=
  match s with
  | EmptyString => EmptyString
  | String c rest => String (lower_ascii c) (toLowerCase rest)
  end.

(** [haystack.includes(needle)] on strings. *)
Fixpoint str_includes (needle haystack : string) : bool :=
  String.prefix needle haystack ||
  match haystack with
  | EmptyString => false
  | String _ rest => str_includes needle rest
  end.

(** [Array.prototype.includes] on an array of strings. *)
Definition includes (x : string) (l : list string) : bool :=
  existsb (String.eqb x) l.

(** [Array.prototype.join]. *)
Definition join (sep : string) (l : list string) : string := String.concat sep l.

End JS.

Import JS.

(** ** Thrown errors *)

(** Every value the code throws is an [Error]; the subclass matters only
    for [GeminiApiError], which carries a status. *)
Inductive JsError : Type :=
| GeminiApiError (status : Z) (message : string)
| TypeError (message : string)
| SyntaxError (message : string)
| SystemError (message : string).

Definition error_message (e : JsError) : string :=
  match e with
  | GeminiApiError _ m => m
  | TypeError m => m
  | SyntaxError m => m
  | SystemError m => m
  end.

Definition is_GeminiApiError (e : JsError) : bool :=
  match e with
  | GeminiApiError _ _ => true
  | _ => false
  end.

Inductive Outcome (A : Type) : Type :=
| Return (a : A)
| Throw (e : JsError).

Arguments Return {A} a.
Arguments Throw {A} e.

(** Property read [v.k] for a key [k] that no built-in prototype defines
    ([message], [error]): reading through [null] throws, any other
    non-object has no such property. *)
Definition get_prop (v : json) (k : string) : Outcome value :=
  match v with
  | JNull =>
      Throw (TypeError ("Cannot read properties of null (reading '" +:+ k +:+ "')"))
  | JObj fields => Return (lookup_field k fields)
  | _ => Return None
  end.

(** Optional chaining [v?.k]. *)
Definition get_prop_opt (v : value) (k : string) : Outcome value :=
  match v with
  | None => Return None
  | Some JNull => Return None
  | Some j => get_prop j k
  end.

Definition NOT_PRIMITIVE : string := "Cannot convert object to primitive value".

(** [`${v}`]: the conversion of a template literal. *)
Definition ToString (v : value) : Outcome string :=
  match value_to_string v with
  | Some s => Return s
  | None => Throw (TypeError NOT_PRIMITIVE)
  end.

(** ** [src/client.ts]: data model *)

Inductive ModelChoice : Type := flash | pro.

Definition MODELS (choice : ModelChoice) : string :=
  match choice with
  | flash => "gemini-2.5-flash-image"
  | pro => "gemini-3-pro-image-preview"
  end.

Definition resolveModel (choice : ModelChoice) : string := MODELS choice.

Record InlineData : Type := mkInlineData {
  mimeType : string;
  data : string
}.

Record GeminiPart : Type := mkPart {
  text : option string;
  inlineData : option InlineData
}.

Record GeminiContent : Type := mkContent {
  parts : list GeminiPart;
  role : string
}.

Record GeminiCandidate : Type := mkCandidate {
  content : GeminiContent
}.

(** The [code] is declared a number; the body is not validated and the
    code that reads it allows for its absence ([code || 500]), so the
    field is optional here. *)
Record ErrorDescriptor : Type := mkErrorDescriptor {
  err_message : string;
  err_code : option Z
}.

Record GeminiResponse : Type := mkResponse {
  candidates : option (list GeminiCandidate);
  error : option ErrorDescriptor
}.

Record GenerateOptions : Type := mkOptions {
  opt_model : ModelChoice;
  opt_parts : list GeminiPart;
  responseModalities : list string;
  aspectRatio : option string;
  imageSize : option string
}.

Record ExtractedResult : Type := mkExtracted {
  res_text : option string;
  imagePath : option string
}.

(** [part.inlineData?.data]: the payload, or [undefined]. *)
Definition payload (p : GeminiPart) : option string :=
  match inlineData p with
  | Some d => Some (data d)
  | None => None
  end.

(** The test [if (part.inlineData?.data)], also the predicate handed to
    [find] by the handlers. *)
Definition has_image (p : GeminiPart) : bool := truthy_str (payload p).

(** The test [if (part.text)], also the predicate handed to [filter]. *)
Definition has_text (p : GeminiPart) : bool := truthy_str (text p).

(** A part as it is serialised into the request body. *)
Definition part_to_json (p : GeminiPart) : json :=
  JObj
    (match text p with Some t => [("text", JStr t)] | None => [] end ++
     match inlineData p with
     | Some d => [("inlineData", JObj [("mimeType", JStr (mimeType d)); ("data", JStr (data d))])]
     | None => []
     end).

(** ** The outside world *)

Record HttpRequest : Type := mkRequest {
  req_url : string;
  req_method : string;
  req_headers : list (string * string);
  req_body : json
}.

(** What [response.json()] settles to. *)
Inductive JsonResult (A : Type) : Type :=
| Malformed (why : string)
| Parsed (a : A).

Arguments Malformed {A} why.
Arguments Parsed {A} a.

(** An HTTP response. The body is read once, on one of two paths: on the
    failure path as an untyped JSON value ([resp_error_body]; [None] when
    [response.json()] rejects), on the success path at the type
    [GeminiResponse] the code casts it to ([resp_payload]). *)
Record HttpResponse : Type := mkHttpResponse {
  resp_status : Z;
  resp_statusText : string;
  resp_error_body : option json;
  resp_payload : JsonResult GeminiResponse
}.

(** [response.ok]. *)
Definition resp_ok (r : HttpResponse) : bool :=
  Z.leb 200 (resp_status r) && Z.leb (resp_status r) 299.

Inductive FetchOutcome : Type :=
| FetchRejected (why : string)
| FetchResolved (r : HttpResponse).

(** The world the code runs in. [files] are the regular files and their
    bytes. A path may be refused to a reader or to a writer whatever
    [files] holds there: it is a directory, the process has no
    permission, the disk is full; [read_refused] and [write_refused]
    give the message of the system error then. *)
Record World : Type := mkWorld {
  files : gmap string (list byte);
  write_refused : string -> option string;
  clock : nat -> Z;
  clock_reads : nat;
  remote : HttpRequest -> FetchOutcome;
  sent : list HttpRequest;
  read_refused : string -> option string
}.

(** ** The effect monad *)

Definition M (A : Type) : Type := World -> Outcome A * World.

Definition ret {A} (a : A) : M A := fun w => (Return a, w).

Definition throw {A} (e : JsError) : M A := fun w => (Throw e, w).

Definition bind {A B} (m : M A) (k : A -> M B) : M B :=
  fun w =>
    match m w with
    | (Return a, w') => k a w'
    | (Throw e, w') => (Throw e, w')
    end.

(** [try { body } catch (error) { handler }]. *)
Definition try_catch {A} (body : M A) (handler : JsError -> M A) : M A :=
  fun w =>
    match body w with
    | (Return a, w') => (Return a, w')
    | (Throw e, w') => handler e w'
    end.

Definition lift {A} (o : Outcome A) : M A := fun w => (o, w).

Notation "'do' x <- m ; k" := (bind m (fun x => k))
  (at level 10, x name, m at level 100, k at level 200).

(** [Date.now()]: the next reading of the clock. *)
Definition Date_now : M Z :=
  fun w =>
    (Return (clock w (clock_reads w)),
     mkWorld (files w) (write_refused w) (clock w) (S (clock_reads w)) (remote w) (sent w)
             (read_refused w)).

(** [readFileSync(path)]: the bytes of a regular file that can be read;
    the error of the system for a path that cannot, [ENOENT] for a path
    that does not exist. *)
Definition readFileSync (path : string) : M (list byte) :=
  fun w =>
    match read_refused w path with
    | Some why => (Throw (SystemError why), w)
    | None =>
        match files w !! path with
        | Some bytes => (Return bytes, w)
        | None =>
            (Throw (SystemError
                      ("ENOENT: no such file or directory, open '" +:+ path +:+ "'")), w)
        end
    end.

(** [writeFileSync(path, buffer)]. *)
Definition writeFileSync (path : string) (buffer : list byte) : M unit :=
  fun w =>
    match write_refused w path with
    | Some why => (Throw (SystemError why), w)
    | None =>
        (Return tt,
         mkWorld (<[path := buffer]> (files w)) (write_refused w) (clock w) (clock_reads w)
                 (remote w) (sent w) (read_refused w))
    end.

(** [await fetch(url, init)]: the request leaves the process, then the
    promise settles. *)
Definition fetch (req : HttpRequest) : M HttpResponse :=
  fun w =>
    let w' := mkWorld (files w) (write_refused w) (clock w) (clock_reads w) (remote w)
                      (sent w ++ [req]) (read_refused w) in
    match remote w req with
    | FetchRejected why => (Throw (TypeError why), w')
    | FetchResolved r => (Return r, w')
    end.

(** ** Node.js library functions *)

(** [Buffer.prototype.toString("base64")]: RFC 4648 with padding. *)
Module Base64.

Definition alphabet : string :=
  "ABCDEFGHIJKLMNOPQRSTUVWXYZabcdefghijklmnopqrstuvwxyz0123456789+/".

Definition digit (n : N) : ascii :=
  match String.get (N.to_nat (n mod 64)) alphabet with
  | Some c => c
  | None => "="%char
  end.

Fixpoint encode (bytes : list byte) : string :=
  match bytes with
  | [] => EmptyString
  | [a] =>
      let n := (Byte.to_N a * 65536)%N in
      String (digit (n / 262144)) (String (digit (n / 4096)) "==")
  | [a; b] =>
      let n := (Byte.to_N a * 65536 + Byte.to_N b * 256)%N in
      String (digit (n / 262144)) (String (digit (n / 4096)) (String (digit (n / 64)) "="))
  | a :: b :: c :: rest =>
      let n := (Byte.to_N a * 65536 + Byte.to_N b * 256 + Byte.to_N c)%N in
      String (digit (n / 262144))
        (String (digit (n / 4096)) (String (digit (n / 64)) (String (digit n) (encode rest))))
  end.

End Base64.

(** The functions of [node:path] and [Buffer] whose result depends on the
    platform or on the leniency of the runtime, and the API key read from
    the environment by [src/auth.ts]. *)
Class NodeRuntime : Type := {
  extname : string -> string;
  path_join : string -> string -> string;
  base64_decode : string -> list byte;
  API_KEY : string
}.

Definition BASE_URL : string := "https://generativelanguage.googleapis.com/v1beta".

Definition newline : string := String (ascii_of_nat 10) EmptyString.

(** ** [src/auth.ts] *)

(** What a start of the process ends in: the module is loaded, or the
    process has exited with a status after writing to standard error. *)
Inductive Startup (A : Type) : Type :=
| Loaded (a : A)
| Exited (status : Z) (stderr : string).

Arguments Loaded {A} a.
Arguments Exited {A} status stderr.

Definition missing_variable (name : string) : string :=
  "Error: Missing required environment variable: " +:+ name +:+ newline +:+
  "  GEMINI_API_KEY is required." +:+ newline +:+
  "  Get your API key at: https://aistudio.google.com/apikey".

(** [getRequiredEnv(name)] over the environment [process.env]. *)
Definition getRequiredEnv (env : gmap string string) (name : string) : Startup string :=
  if_str (env !! name) (fun value => Loaded value) (Exited 1 (missing_variable name)).

(** [export const API_KEY = getRequiredEnv("GEMINI_API_KEY")]. *)
Definition load_API_KEY (env : gmap string string) : Startup string :=
  getRequiredEnv env "GEMINI_API_KEY".

(** ** [src/client.ts]: operations *)

Section Client.

Context {rt : NodeRuntime}.

(** [obj[k] = v] on an object kept in insertion order. *)
Fixpoint set_field (k : string) (v : json) (fields : list (string * json))
  : list (string * json) :=
  match fields with
  | [] => [(k, v)]
  | (k', v') :: rest =>
      if String.eqb k k' then (k, v) :: rest else (k', v') :: set_field k v rest
  end.

(** Lines 64-76 of [generateContent]: the [generationConfig] object. *)
Definition build_generationConfig (options : GenerateOptions) : list (string * json) :=
  let generationConfig :=
    [("responseModalities", JArr (map JStr (responseModalities options)))] in
  if includes "IMAGE" (responseModalities options) &&
     (truthy_str (aspectRatio options) || truthy_str (imageSize options))
  then
    let imageConfig := [] in
    let imageConfig :=
      if_str (aspectRatio options)
        (fun a => set_field "aspectRatio" (JStr a) imageConfig) imageConfig in
    let imageConfig :=
      if_str (imageSize options)
        (fun s => set_field "imageSize" (JStr s) imageConfig) imageConfig in
    set_field "imageConfig" (JObj imageConfig) generationConfig
  else generationConfig.

(** Lines 61-90 of [generateContent]: the request handed to [fetch]. *)
Definition build_request (options : GenerateOptions) : HttpRequest :=
  let modelId := resolveModel (opt_model options) in
  let url := BASE_URL +:+ "/models/" +:+ modelId +:+ ":generateContent" in
  let body :=
    JObj [("contents",
           JArr [JObj [("role", JStr "user");
                       ("parts", JArr (map part_to_json (opt_parts options)))]]);
          ("generationConfig", JObj (build_generationConfig options))] in
  mkRequest url "POST"
    [("Content-Type", "application/json"); ("x-goog-api-key", API_KEY)]
    body.

Definition RATE_LIMIT_MESSAGE : string :=
  "Rate limit exceeded. Gemini image generation is limited to ~2-5 requests per minute. Try again in a moment.".

(** [error.message || error.error?.message || response.statusText], with
    the short-circuit evaluation of [||]. *)
Definition derive_msg (error : json) (statusText : string) : Outcome value :=
  match get_prop error "message" with
  | Throw e => Throw e
  | Return m1 =>
      if truthy m1 then Return m1
      else
        match get_prop error "error" with
        | Throw e => Throw e
        | Return inner =>
            match get_prop_opt inner "message" with
            | Throw e => Throw e
            | Return m2 =>
                if truthy m2 then Return m2 else Return (Some (JStr statusText))
            end
        end
  end.

(** Lines 92-110 of [generateContent]: the failure path. *)
Definition raise_for_status {A} (response : HttpResponse) : M A :=
  let error :=
    match resp_error_body response with
    | Some j => j
    | None => JObj []
    end in
  do msg <- lift (derive_msg error (resp_statusText response));
  if Z.eqb (resp_status response) 429 then
    throw (GeminiApiError 429 RATE_LIMIT_MESSAGE)
  else
    do text <- lift (ToString msg);
    throw (GeminiApiError (resp_status response)
             ("Gemini API error (" +:+ pretty (resp_status response) +:+ "): " +:+ text)).

Definition generateContent (options : GenerateOptions) : M GeminiResponse :=
  do response <- fetch (build_request options);
  if negb (resp_ok response) then raise_for_status response
  else
    match resp_payload response with
    | Parsed r => ret r
    | Malformed why => throw (SyntaxError why)
    end.

(** *** Image file helpers *)

Definition mimeMap : list (string * string) :=
  [(".png", "image/png");
   (".jpg", "image/jpeg");
   (".jpeg", "image/jpeg");
   (".gif", "image/gif");
   (".webp", "image/webp");
   (".bmp", "image/bmp")].

Fixpoint mime_lookup (ext : string) (table : list (string * string)) : option string :=
  match table with
  | [] => None
  | (k, v) :: rest => if String.eqb ext k then Some v else mime_lookup ext rest
  end.

Record ImageData : Type := mkImageData {
  img_data : string;
  img_mimeType : string
}.

Definition readImageAsBase64 (filePath : string) : M ImageData :=
  do buffer <- readFileSync filePath;
  let ext := toLowerCase (extname filePath) in
  let mimeType :=
    if_str (mime_lookup ext mimeMap) (fun m => m) "image/png" in
  ret (mkImageData (Base64.encode buffer) mimeType).

Definition saveBase64Image (base64 outputDir : string) : M string :=
  do timestamp <- Date_now;
  let filename := "nano-banana-" +:+ pretty timestamp +:+ ".png" in
  let filePath := path_join outputDir filename in
  let buffer := base64_decode base64 in
  do _ <- writeFileSync filePath buffer;
  ret filePath.

(** *** Response extraction *)

(** The [for (const part of parts)] loop, over the two variables it
    updates: [textParts] and [result.imagePath]. *)
Fixpoint extract_loop (ps : list GeminiPart) (outputDir : string)
    (textParts : list string) (path : option string)
  : M (list string * option string) :=
  match ps with
  | [] => ret (textParts, path)
  | part :: rest =>
      let textParts :=
        if_str (text part) (fun t => (textParts ++ [t])%list) textParts in
      if_str (payload part)
        (fun d =>
           do p <- saveBase64Image d outputDir;
           extract_loop rest outputDir textParts (Some p))
        (extract_loop rest outputDir textParts path)
  end.

Definition extractResult (response : GeminiResponse) (outputDir : string)
  : M ExtractedResult :=
  let result := mkExtracted None None in
  match candidates response with
  | None | Some [] =>
      match error response with
      | Some e =>
          throw (GeminiApiError (num_or (err_code e) 500) (err_message e))
      | None => ret result
      end
  | Some (first :: _) =>
      do r <- extract_loop (parts (content first)) outputDir [] (imagePath result);
      let '(textParts, path) := r in
      if (0 <? length textParts)%nat
      then ret (mkExtracted (Some (join newline textParts)) path)
      else ret (mkExtracted (res_text result) path)
  end.

End Client.

(** *** Tool result helpers *)

(** [JSON.stringify(data, null, 2)] on the values the handlers build:
    objects whose keys are not array indices, so that the insertion order
    is the enumeration order. *)
Module Stringify.

Definition hex_digit (n : nat) : ascii :=
  match String.get n "0123456789abcdef" with
  | Some c => c
  | None => "0"%char
  end.

Definition quote_char : ascii := ascii_of_nat 34.
Definition backslash : ascii := ascii_of_nat 92.

Definition escape_char (c : ascii) : string :=
  let n := nat_of_ascii c in
  if (n =? 34)%nat then String backslash (String quote_char EmptyString)
  else if (n =? 92)%nat then String backslash (String backslash EmptyString)
  else if (n =? 8)%nat then String backslash "b"
  else if (n =? 9)%nat then String backslash "t"
  else if (n =? 10)%nat then String backslash "n"
  else if (n =? 12)%nat then String backslash "f"
  else if (n =? 13)%nat then String backslash "r"
  else if (n <? 32)%nat then
    String backslash
      ("u00" +:+ String (hex_digit (n / 16)) (String (hex_digit (n mod 16)) EmptyString))
  else String c EmptyString.

Fixpoint escape (s : string) : string :=
  match s with
  | EmptyString => EmptyString
  | String c rest => escape_char c +:+ escape rest
  end.

Definition quote (s : string) : string :=
  String quote_char (escape s +:+ String quote_char EmptyString).

Fixpoint stringify_at (indent : string) (v : json) : string :=
  let inner := indent +:+ "  " in
  let sep := "," +:+ newline +:+ inner in
  match v with
  | JNull => "null"
  | JBool true => "true"
  | JBool false => "false"
  | JNum n =>
      if Z.leb (2 ^ 1024) (nearest_double (Z.abs n)) then "null" else Number_toString n
  | JStr s => quote s
  | JArr [] => "[]"
  | JArr items =>
      "[" +:+ newline +:+ inner +:+
      String.concat sep
        ((fix each (l : list json) : list string :=
            match l with
            | [] => []
            | x :: l' => stringify_at inner x :: each l'
            end) items)
      +:+ newline +:+ indent +:+ "]"
  | JObj [] => "{}"
  | JObj fields =>
      "{" +:+ newline +:+ inner +:+
      String.concat sep
        ((fix each (l : list (string * json)) : list string :=
            match l with
            | [] => []
            | (k, x) :: l' => (quote k +:+ ": " +:+ stringify_at inner x) :: each l'
            end) fields)
      +:+ newline +:+ indent +:+ "}"
  end.

Definition stringify (v : json) : string := stringify_at EmptyString v.

End Stringify.

Inductive ContentItem : Type :=
| TextItem (text : string)
| ImageItem (data : string) (mimeType : string).

(** The result envelope; [isError] is [true] exactly when the object
    carries the [isError: true] flag. *)
Record ToolEnvelope : Type := mkEnvelope {
  isError : bool;
  env_content : list ContentItem
}.

Definition toolResult (data : json) : ToolEnvelope :=
  mkEnvelope false [TextItem (Stringify.stringify data)].

Definition toolResultWithImage (data : json) (base64 : string) : ToolEnvelope :=
  mkEnvelope false [ImageItem base64 "image/png"; TextItem (Stringify.stringify data)].

Definition toolError (message : string) : ToolEnvelope :=
  mkEnvelope true [TextItem message].

(** ** [src/tools/images.ts]: input schemas *)

(** The zod combinators the schemas are written with. A parser receives
    the property of the argument object ([None] when the caller left it
    out) and yields the parsed value, or [None] when validation fails. *)
Module Zod.

Definition parser (A : Type) : Type := value -> option A.

(** [z.string().min(n)]; [z.string()] is [z_string 0]. *)
Definition z_string (min : nat) : parser string :=
  fun v =>
    match v with
    | Some (JStr s) => if (min <=? String.length s)%nat then Some s else None
    | _ => None
    end.

Fixpoint enum_lookup {A} (s : string) (table : list (string * A)) : option A :=
  match table with
  | [] => None
  | (k, a) :: rest => if String.eqb s k then Some a else enum_lookup s rest
  end.

(** [z.enum([...])], each literal paired with the value it stands for. *)
Definition z_enum {A} (table : list (string * A)) : parser A :=
  fun v =>
    match v with
    | Some (JStr s) => enum_lookup s table
    | _ => None
    end.

(** [schema.default(d)]. *)
Definition z_default {A} (d : A) (p : parser A) : parser A :=
  fun v =>
    match v with
    | None => Some d
    | Some _ => p v
    end.

(** [schema.optional()]. *)
Definition z_optional {A} (p : parser A) : parser (option A) :=
  fun v =>
    match v with
    | None => Some None
    | Some _ => option_map Some (p v)
    end.

Fixpoint parse_items {A} (p : parser A) (items : list json) : option (list A) :=
  match items with
  | [] => Some []
  | x :: rest =>
      match p (Some x), parse_items p rest with
      | Some a, Some l => Some (a :: l)
      | _, _ => None
      end
  end.

(** [z.array(item).min(lo).max(hi)]. *)
Definition z_array {A} (item : parser A) (lo hi : nat) : parser (list A) :=
  fun v =>
    match v with
    | Some (JArr items) =>
        if ((lo <=? length items) && (length items <=? hi))%nat
        then parse_items item items
        else None
    | _ => None
    end.

(** The property [k] of the argument object; arguments that are not an
    object have no properties to offer and fail every required field. *)
Definition field (args : json) (k : string) : option value :=
  match args with
  | JObj fields => Some (lookup_field k fields)
  | _ => None
  end.

Definition parse_field {A} (args : json) (k : string) (p : parser A) : option A :=
  match field args k with
  | Some v => p v
  | None => None
  end.

End Zod.

Import Zod.

Definition MODEL_ENUM : parser ModelChoice :=
  z_default flash (z_enum [("flash", flash); ("pro", pro)]).

Definition same (l : list string) : list (string * string) := map (fun s => (s, s)) l.

Definition ASPECT_RATIOS : list string :=
  ["1:1"; "16:9"; "9:16"; "4:3"; "3:4"; "3:2"; "2:3"; "21:9"; "4:5"; "5:4"].

Definition ASPECT_RATIO_ENUM : parser string :=
  z_default "1:1" (z_enum (same ASPECT_RATIOS)).

Definition IMAGE_SIZE_ENUM : parser string :=
  z_default "1K" (z_enum (same ["1K"; "2K"; "4K"])).

Definition OUTPUT_DIR_SCHEMA : parser string := z_default "." (z_string 0).

Record GenerateArgs : Type := mkGenerateArgs {
  g_prompt : string;
  g_model : ModelChoice;
  g_aspect_ratio : string;
  g_image_size : string;
  g_output_dir : string
}.

Record EditArgs : Type := mkEditArgs {
  e_image_path : string;
  e_instruction : string;
  e_model : ModelChoice;
  e_aspect_ratio : option string;
  e_image_size : string;
  e_output_dir : string
}.

Record ComposeArgs : Type := mkComposeArgs {
  c_image_paths : list string;
  c_instruction : string;
  c_model : ModelChoice;
  c_aspect_ratio : string;
  c_image_size : string;
  c_output_dir : string
}.

Record DescribeArgs : Type := mkDescribeArgs {
  d_image_path : string;
  d_prompt : string;
  d_model : ModelChoice
}.

Definition generate_image_schema (args : json) : option GenerateArgs :=
  prompt ← parse_field args "prompt" (z_string 1);
  model ← parse_field args "model" MODEL_ENUM;
  aspect_ratio ← parse_field args "aspect_ratio" ASPECT_RATIO_ENUM;
  image_size ← parse_field args "image_size" IMAGE_SIZE_ENUM;
  output_dir ← parse_field args "output_dir" OUTPUT_DIR_SCHEMA;
  Some (mkGenerateArgs prompt model aspect_ratio image_size output_dir).

Definition edit_image_schema (args : json) : option EditArgs :=
  image_path ← parse_field args "image_path" (z_string 1);
  instruction ← parse_field args "instruction" (z_string 1);
  model ← parse_field args "model" MODEL_ENUM;
  aspect_ratio ← parse_field args "aspect_ratio" (z_optional ASPECT_RATIO_ENUM);
  image_size ← parse_field args "image_size" IMAGE_SIZE_ENUM;
  output_dir ← parse_field args "output_dir" OUTPUT_DIR_SCHEMA;
  Some (mkEditArgs image_path instruction model aspect_ratio image_size output_dir).

Definition compose_images_schema (args : json) : option ComposeArgs :=
  image_paths ← parse_field args "image_paths" (z_array (z_string 0) 1 14);
  instruction ← parse_field args "instruction" (z_string 1);
  model ← parse_field args "model" MODEL_ENUM;
  aspect_ratio ← parse_field args "aspect_ratio" ASPECT_RATIO_ENUM;
  image_size ← parse_field args "image_size" IMAGE_SIZE_ENUM;
  output_dir ← parse_field args "output_dir" OUTPUT_DIR_SCHEMA;
  Some (mkComposeArgs image_paths instruction model aspect_ratio image_size output_dir).

Definition describe_image_schema (args : json) : option DescribeArgs :=
  image_path ← parse_field args "image_path" (z_string 1);
  prompt ← parse_field args "prompt" (z_default "Describe this image in detail." (z_string 0));
  model ← parse_field args "model" MODEL_ENUM;
  Some (mkDescribeArgs image_path prompt model).

(** ** [src/tools/images.ts]: handlers *)

Section Handlers.

Context {rt : NodeRuntime}.

Definition model_name (m : ModelChoice) : string :=
  match m with
  | flash => "flash"
  | pro => "pro"
  end.

(** A [string | null] as a JSON value. *)
Definition nullable (s : option string) : json :=
  match s with
  | Some t => JStr t
  | None => JNull
  end.

Definition reading_of_undefined (k : string) : JsError :=
  TypeError ("Cannot read properties of undefined (reading '" +:+ k +:+ "')").

(** [response.candidates![0].content.parts.find((p) => p.inlineData?.data)]
    followed by [imagePart!.inlineData!.data]: the non-null assertions
    are erased at run time, so a missing link throws. *)
Definition first_image_data (response : GeminiResponse) : M string :=
  match candidates response with
  | None => throw (reading_of_undefined "0")
  | Some [] => throw (reading_of_undefined "content")
  | Some (first :: _) =>
      match List.find has_image (parts (content first)) with
      | None => throw (reading_of_undefined "inlineData")
      | Some imagePart =>
          match inlineData imagePart with
          | None => throw (reading_of_undefined "data")
          | Some d => ret (data d)
          end
      end
  end.

Definition NO_IMAGE_GENERATE : string :=
  "No image was generated. The model may have refused the prompt due to safety filters. Try rephrasing.".

Definition NO_IMAGE_EDIT : string :=
  "No image was generated. The model may have refused the edit. Try a different instruction.".

Definition NO_IMAGE_COMPOSE : string :=
  "No image was generated from composition. Try a different instruction.".

Definition NO_DESCRIPTION : string := "No description was generated.".

(** The [try] block of [generate_image]. *)
Definition generate_image_body (a : GenerateArgs) : M ToolEnvelope :=
  do response <- generateContent
    (mkOptions (g_model a) [mkPart (Some (g_prompt a)) None] ["TEXT"; "IMAGE"]
       (Some (g_aspect_ratio a)) (Some (g_image_size a)));
  do result <- extractResult response (g_output_dir a);
  if negb (truthy_str (imagePath result)) then ret (toolError NO_IMAGE_GENERATE)
  else
    do image <- first_image_data response;
    ret (toolResultWithImage
           (JObj [("saved_to", nullable (imagePath result));
                  ("model", JStr (model_name (g_model a)));
                  ("aspect_ratio", JStr (g_aspect_ratio a));
                  ("image_size", JStr (g_image_size a));
                  ("description", nullable (res_text result))])
           image).

Definition generate_image (a : GenerateArgs) : M ToolEnvelope :=
  try_catch (generate_image_body a)
    (fun error => ret (toolError ("Failed to generate image: " +:+ error_message error))).

(** The [try] block of [edit_image]. *)
Definition edit_image_body (a : EditArgs) : M ToolEnvelope :=
  do img <- readImageAsBase64 (e_image_path a);
  do response <- generateContent
    (mkOptions (e_model a)
       [mkPart None (Some (mkInlineData (img_mimeType img) (img_data img)));
        mkPart (Some (e_instruction a)) None]
       ["TEXT"; "IMAGE"] (e_aspect_ratio a) (Some (e_image_size a)));
  do result <- extractResult response (e_output_dir a);
  if negb (truthy_str (imagePath result)) then ret (toolError NO_IMAGE_EDIT)
  else
    do image <- first_image_data response;
    ret (toolResultWithImage
           (JObj [("saved_to", nullable (imagePath result));
                  ("source", JStr (e_image_path a));
                  ("instruction", JStr (e_instruction a));
                  ("model", JStr (model_name (e_model a)));
                  ("description", nullable (res_text result))])
           image).

Definition edit_image (a : EditArgs) : M ToolEnvelope :=
  try_catch (edit_image_body a)
    (fun error => ret (toolError ("Failed to edit image: " +:+ error_message error))).

(** [image_paths.map((path) => ...)]: the files are read in order. *)
Fixpoint read_parts (paths : list string) : M (list GeminiPart) :=
  match paths with
  | [] => ret []
  | path :: rest =>
      do img <- readImageAsBase64 path;
      do more <- read_parts rest;
      ret (mkPart None (Some (mkInlineData (img_mimeType img) (img_data img))) :: more)
  end.

(** The [try] block of [compose_images]. *)
Definition compose_images_body (a : ComposeArgs) : M ToolEnvelope :=
  do image_parts <- read_parts (c_image_paths a);
  do response <- generateContent
    (mkOptions (c_model a) (image_parts ++ [mkPart (Some (c_instruction a)) None])
       ["TEXT"; "IMAGE"] (Some (c_aspect_ratio a)) (Some (c_image_size a)));
  do result <- extractResult response (c_output_dir a);
  if negb (truthy_str (imagePath result)) then ret (toolError NO_IMAGE_COMPOSE)
  else
    do image <- first_image_data response;
    ret (toolResultWithImage
           (JObj [("saved_to", nullable (imagePath result));
                  ("sources", JArr (map JStr (c_image_paths a)));
                  ("instruction", JStr (c_instruction a));
                  ("model", JStr (model_name (c_model a)));
                  ("description", nullable (res_text result))])
           image).

Definition compose_images (a : ComposeArgs) : M ToolEnvelope :=
  try_catch (compose_images_body a)
    (fun error => ret (toolError ("Failed to compose images: " +:+ error_message error))).

(** [parts.filter((p) => p.text).map((p) => p.text!).join(newline)]. *)
Definition joined_text (ps : list GeminiPart) : string :=
  join newline
    (map (fun p => match text p with Some t => t | None => EmptyString end)
         (List.filter has_text ps)).

(** The [try] block of [describe_image]. *)
Definition describe_image_body (a : DescribeArgs) : M ToolEnvelope :=
  do img <- readImageAsBase64 (d_image_path a);
  do response <- generateContent
    (mkOptions (d_model a)
       [mkPart None (Some (mkInlineData (img_mimeType img) (img_data img)));
        mkPart (Some (d_prompt a)) None]
       ["TEXT"] None None);
  match candidates response with
  | None | Some [] => ret (toolError NO_DESCRIPTION)
  | Some (first :: _) =>
      let textParts := joined_text (parts (content first)) in
      ret (toolResult
             (JObj [("image_path", JStr (d_image_path a));
                    ("description", JStr textParts);
                    ("model", JStr (model_name (d_model a)))]))
  end.

Definition describe_image (a : DescribeArgs) : M ToolEnvelope :=
  try_catch (describe_image_body a)
    (fun error => ret (toolError ("Failed to describe image: " +:+ error_message error))).

(** *** Declared capability hints *)

Record Annotations : Type := mkAnnotations {
  readOnlyHint : bool;
  destructiveHint : bool;
  openWorldHint : bool
}.

Definition generate_image_annotations : Annotations := mkAnnotations false false true.
Definition edit_image_annotations : Annotations := mkAnnotations false false true.
Definition compose_images_annotations : Annotations := mkAnnotations false false true.
Definition describe_image_annotations : Annotations := mkAnnotations true false true.

(** *** The protocol dispatcher *)

Inductive CallResult : Type :=
| InvalidParams
| UnknownTool
| Handled (envelope : ToolEnvelope).

(** Modelled from the spec: the dispatcher that [registerTool] hands
    each handler and its input schema to belongs to the protocol SDK,
    not to the repository. Each operation validates its inputs against
    its fixed schema, and a call that fails validation is rejected at
    that boundary: the handler runs on arguments that parse, and on
    those only. *)
Definition run_tool {A} (schema : json -> option A) (handler : A -> M ToolEnvelope)
    (args : json) : M CallResult :=
  match schema args with
  | None => ret InvalidParams
  | Some a => do envelope <- handler a; ret (Handled envelope)
  end.

(** Modelled from the spec: the four named operations the dispatcher
    routes a call to. *)
Definition call_tool (name : string) (args : json) : M CallResult :=
  if String.eqb name "generate_image" then run_tool generate_image_schema generate_image args
  else if String.eqb name "edit_image" then run_tool edit_image_schema edit_image args
  else if String.eqb name "compose_images" then run_tool compose_images_schema compose_images args
  else if String.eqb name "describe_image" then run_tool describe_image_schema describe_image args
  else ret UnknownTool.

End Handlers.

(** ** A POSIX runtime

    An instance of [NodeRuntime] on which the handlers can be run:
    [path.posix.extname], [path.posix.join] and a base64 decoder that
    skips the characters outside the alphabet and stops at the padding. *)
Module Posix.

Definition slash : ascii := ascii_of_nat 47.
Definition dot : ascii := ascii_of_nat 46.

Definition is_slash (c : ascii) : bool := Ascii.eqb c slash.
Definition is_dot (c : ascii) : bool := Ascii.eqb c dot.

Fixpoint drop_while (f : ascii -> bool) (l : list ascii) : list ascii :=
  match l with
  | [] => []
  | c :: rest => if f c then drop_while f rest else l
  end.

Fixpoint take_until (f : ascii -> bool) (l : list ascii) : list ascii :=
  match l with
  | [] => []
  | c :: rest => if f c then [] else c :: take_until f rest
  end.

(** The last path component, reversed, trailing separators dropped. *)
Definition last_component_rev (path : string) : list ascii :=
  take_until is_slash (drop_while is_slash (rev (String.list_ascii_of_string path))).

Definition extname (path : string) : string :=
  let comp := last_component_rev path in
  if negb (existsb is_dot comp) then EmptyString
  else
    let after := take_until is_dot comp in
    if (S (length after) =? length comp)%nat then EmptyString
    else if forallb is_dot comp && (length comp =? 2)%nat then EmptyString
    else String.string_of_list_ascii (rev (after ++ [dot])).

Fixpoint split_rev (l : list ascii) (cur : list ascii) (acc : list (list ascii))
  : list (list ascii) :=
  match l with
  | [] => rev cur :: acc
  | c :: rest => if is_slash c then split_rev rest [] (rev cur :: acc)
                 else split_rev rest (c :: cur) acc
  end.

(** Segments of a path, in order. *)
Definition segments (path : string) : list (list ascii) :=
  rev (split_rev (String.list_ascii_of_string path) [] []).

Definition is_dotdot (seg : list ascii) : bool :=
  forallb is_dot seg && (length seg =? 2)%nat.

Definition is_single_dot (seg : list ascii) : bool :=
  forallb is_dot seg && (length seg =? 1)%nat.

(** [normalizeString]: the stack of kept segments, most recent first. *)
Fixpoint normalize_segments (absolute : bool) (segs : list (list ascii))
    (kept : list (list ascii)) : list (list ascii) :=
  match segs with
  | [] => kept
  | seg :: rest =>
      if (length seg =? 0)%nat || is_single_dot seg then normalize_segments absolute rest kept
      else if is_dotdot seg then
        match kept with
        | top :: below =>
            if is_dotdot top then normalize_segments absolute rest (seg :: kept)
            else normalize_segments absolute rest below
        | [] =>
            if absolute then normalize_segments absolute rest kept
            else normalize_segments absolute rest [seg]
        end
      else normalize_segments absolute rest (seg :: kept)
  end.

Definition normalize (path : string) : string :=
  let absolute := String.prefix "/" path in
  let kept := rev (normalize_segments absolute (segments path) []) in
  let body := String.concat "/" (map String.string_of_list_ascii kept) in
  if absolute then "/" +:+ body
  else if String.eqb body EmptyString then "." else body.

Definition join (dir file : string) : string :=
  if String.eqb dir EmptyString then normalize file
  else normalize (dir +:+ "/" +:+ file).

Definition sextet (c : ascii) : option N :=
  let n := N_of_ascii c in
  if ((65 <=? n) && (n <=? 90))%N then Some (n - 65)%N
  else if ((97 <=? n) && (n <=? 122))%N then Some (n - 71)%N
  else if ((48 <=? n) && (n <=? 57))%N then Some (n + 4)%N
  else if ((n =? 43) || (n =? 45))%N then Some 62%N
  else if ((n =? 47) || (n =? 95))%N then Some 63%N
  else None.

Fixpoint sextets (s : string) : list N :=
  match s with
  | EmptyString => []
  | String c rest =>
      if Ascii.eqb c "="%char then []
      else match sextet c with
           | Some n => n :: sextets rest
           | None => sextets rest
           end
  end.

Definition byte_of (n : N) : byte :=
  match Byte.of_N (n mod 256) with
  | Some b => b
  | None => Byte.x00
  end.

Fixpoint decode_sextets (l : list N) : list byte :=
  match l with
  | a :: b :: c :: d :: rest =>
      let n := (a * 262144 + b * 4096 + c * 64 + d)%N in
      byte_of (n / 65536) :: byte_of (n / 256) :: byte_of n :: decode_sextets rest
  | [a; b; c] =>
      let n := (a * 262144 + b * 4096 + c * 64)%N in
      [byte_of (n / 65536); byte_of (n / 256)]
  | [a; b] =>
      let n := (a * 262144 + b * 4096)%N in
      [byte_of (n / 65536)]
  | _ => []
  end.

Definition decode (s : string) : list byte := decode_sextets (sextets s).

Definition runtime : NodeRuntime :=
  Build_NodeRuntime extname join decode "test-key".

End Posix.

(** * Specification vocabulary

    The notions the properties are stated with: the readings of the
    specification's words, the pure account of what the extraction loop
    does to the world, the stages of the handlers, and the worlds and
    calls the properties are run on. *)

Section Vocabulary.

Context {rt : NodeRuntime}.

(** ** Supplied, and supplied with content *)

(** A field counts when it was supplied as a non-empty string: the
    reading of [if (field)]. *)
Definition nonempty (s : option string) : option string :=
  match s with
  | Some t => if String.eqb t "" then None else Some t
  | None => None
  end.

Definition given (s : option string) : bool :=
  match nonempty s with
  | Some _ => true
  | None => false
  end.

(** A field counts as soon as it was supplied at all: the reading of the
    word in the specification. *)
Definition supplied (s : option string) : bool :=
  match s with
  | Some _ => true
  | None => false
  end.

(** ** Extraction *)

Definition no_candidates (r : GeminiResponse) : bool :=
  match candidates r with
  | None | Some [] => true
  | Some (_ :: _) => false
  end.

(** The status the specification words promise: the descriptor's code,
    500 when the code is unset. *)
Definition code_or_500 (e : ErrorDescriptor) : Z :=
  match err_code e with
  | Some c => c
  | None => 500
  end.

(** The status [response.error.code || 500] evaluates to: a code of zero
    is replaced as well. *)
Definition status_thrown (e : ErrorDescriptor) : Z :=
  match err_code e with
  | Some c => if Z.eqb c 0 then 500 else c
  | None => 500
  end.

(** The texts the loop keeps: the non-empty ones, in encounter order. *)
Definition nonempty_texts (ps : list GeminiPart) : list string :=
  omap (fun p => nonempty (text p)) ps.

(** The payloads the loop saves: the non-empty ones, in encounter order. *)
Definition image_payloads (ps : list GeminiPart) : list string :=
  omap (fun p => nonempty (payload p)) ps.

(** The text fields of every part that has one, as the specification
    words it. *)
Definition text_fields (ps : list GeminiPart) : list string := omap text ps.

(** Texts joined by newlines, null when there is none. *)
Definition joined (ts : list string) : option string :=
  match ts with
  | [] => None
  | _ => Some (join newline ts)
  end.

(** The response contains no inline-image part. *)
Definition no_image_part (r : GeminiResponse) : bool :=
  match candidates r with
  | Some (first :: _) => forallb (fun p => negb (has_image p)) (parts (content first))
  | _ => true
  end.

Definition filename (timestamp : Z) : string :=
  "nano-banana-" +:+ pretty timestamp +:+ ".png".

(** The path of the file written at the [n]-th reading of the clock. *)
Definition path_at (outputDir : string) (w : World) (n : nat) : string :=
  path_join outputDir (filename (clock w n)).

(** The world after one payload has been saved. *)
Definition save_one (d outputDir : string) (w : World) : World :=
  mkWorld (<[path_at outputDir w (clock_reads w) := base64_decode d]> (files w))
          (write_refused w) (clock w) (S (clock_reads w)) (remote w) (sent w)
          (read_refused w).

(** The world after the payloads have been saved one after the other. *)
Fixpoint saved (ds : list string) (outputDir : string) (w : World) : World :=
  match ds with
  | [] => w
  | d :: rest => saved rest outputDir (save_one d outputDir w)
  end.

(** The path recorded last. *)
Fixpoint last_path (ds : list string) (outputDir : string) (w : World)
    (recorded : option string) : option string :=
  match ds with
  | [] => recorded
  | d :: rest =>
      last_path rest outputDir (save_one d outputDir w)
        (Some (path_at outputDir w (clock_reads w)))
  end.


(** ** The failure path of the endpoint client *)

(** Reading a property of a body that is not [null]. *)
Definition prop (v : json) (k : string) : value :=
  match v with
  | JObj fields => lookup_field k fields
  | _ => None
  end.

(** A candidate message is passed over when it is missing or falsy. *)
Definition usable (v : value) : value := if truthy v then v else None.

(** The fallback chain in the words of the specification: [body.message],
    else [body.error.message], else the status text. *)
Definition message_by_fallback (body : json) (statusText : string) : json :=
  match usable (prop body "message") with
  | Some m => m
  | None =>
      match usable (match prop body "error" with
                    | Some inner => prop inner "message"
                    | None => None
                    end) with
      | Some m => m
      | None => JStr statusText
      end
  end.

(** A malformed or absent body counts as the empty object. *)
Definition body_or_empty (response : HttpResponse) : json :=
  match resp_error_body response with
  | Some j => j
  | None => JObj []
  end.

(** The message chosen for a response, as text; [None] when it is an
    object or an array that does not convert to a string. *)
Definition message_text (response : HttpResponse) : option string :=
  to_string (message_by_fallback (body_or_empty response) (resp_statusText response)).

(** The typed error of a status and a message text. *)
Definition api_error (status : Z) (text : string) : JsError :=
  GeminiApiError status ("Gemini API error (" +:+ pretty status +:+ "): " +:+ text).

(** The error a non-2xx response ends in, its body not being [null]:
    the rate-limit error for 429, else the typed error with the chosen
    message, or the error of the conversion when the message does not
    convert to a string. *)
Definition failure_for (response : HttpResponse) : JsError :=
  if Z.eqb (resp_status response) 429 then GeminiApiError 429 RATE_LIMIT_MESSAGE
  else
    match message_text response with
    | Some text => api_error (resp_status response) text
    | None => TypeError NOT_PRIMITIVE
    end.

(** A body whose [message] is an object with a property [toString]. *)
Definition unprintable_body : json :=
  JObj [("message", JObj [("toString", JNum 1)])].

(** ** The request body *)

(** The fields of [imageConfig], in the order the code assigns them. *)
Definition supplied_subset (options : GenerateOptions) : list (string * json) :=
  (match nonempty (aspectRatio options) with
   | Some a => [("aspectRatio", JStr a)]
   | None => []
   end ++
   match nonempty (imageSize options) with
   | Some s => [("imageSize", JStr s)]
   | None => []
   end)%list.

(** ** Reading an image *)

(** The error [readFileSync] throws for a path that does not exist. *)
Definition ENOENT (path : string) : JsError :=
  SystemError ("ENOENT: no such file or directory, open '" +:+ path +:+ "'").

(** The error a read of the path ends in, if it does: the error of the
    system for a path refused to the reader, [ENOENT] for a path that
    does not exist. *)
Definition read_failure (w : World) (path : string) : option JsError :=
  match read_refused w path with
  | Some why => Some (SystemError why)
  | None =>
      match files w !! path with
      | Some _ => None
      | None => Some (ENOENT path)
      end
  end.

Definition known_extensions : list string :=
  [".png"; ".jpg"; ".jpeg"; ".gif"; ".webp"; ".bmp"].

(** The table in the words of the specification: png, jpg and jpeg, gif,
    webp, bmp, and PNG for everything else. *)
Definition mime_for_extension (ext : string) : string :=
  if String.eqb ext ".png" then "image/png"
  else if String.eqb ext ".jpg" || String.eqb ext ".jpeg" then "image/jpeg"
  else if String.eqb ext ".gif" then "image/gif"
  else if String.eqb ext ".webp" then "image/webp"
  else if String.eqb ext ".bmp" then "image/bmp"
  else "image/png".

(** ** The stages of a handler *)

Definition is_return {A} (o : Outcome A) : bool :=
  match o with
  | Return _ => true
  | Throw _ => false
  end.

(** The options each handler hands to [generateContent]. *)
Definition generate_options (a : GenerateArgs) : GenerateOptions :=
  mkOptions (g_model a) [mkPart (Some (g_prompt a)) None] ["TEXT"; "IMAGE"]
    (Some (g_aspect_ratio a)) (Some (g_image_size a)).

Definition image_part (img : ImageData) : GeminiPart :=
  mkPart None (Some (mkInlineData (img_mimeType img) (img_data img))).

Definition edit_options (a : EditArgs) (img : ImageData) : GenerateOptions :=
  mkOptions (e_model a) [image_part img; mkPart (Some (e_instruction a)) None]
    ["TEXT"; "IMAGE"] (e_aspect_ratio a) (Some (e_image_size a)).

Definition compose_options (a : ComposeArgs) (image_parts : list GeminiPart)
  : GenerateOptions :=
  mkOptions (c_model a) (image_parts ++ [mkPart (Some (c_instruction a)) None])
    ["TEXT"; "IMAGE"] (Some (c_aspect_ratio a)) (Some (c_image_size a)).

Definition describe_options (a : DescribeArgs) (img : ImageData) : GenerateOptions :=
  mkOptions (d_model a) [image_part img; mkPart (Some (d_prompt a)) None] ["TEXT"] None None.

(** The part of each image handler that comes before extraction: part
    assembly and the endpoint call. *)
Definition generate_request (a : GenerateArgs) : M GeminiResponse :=
  generateContent (generate_options a).

Definition edit_request (a : EditArgs) : M GeminiResponse :=
  do img <- readImageAsBase64 (e_image_path a);
  generateContent (edit_options a img).

Definition compose_request (a : ComposeArgs) : M GeminiResponse :=
  do image_parts <- read_parts (c_image_paths a);
  generateContent (compose_options a image_parts).

(** The part that comes after: extraction, the test on [imagePath], and
    the envelope. [meta] builds the metadata object from the extracted
    result. *)
Definition image_reply (response : GeminiResponse) (outputDir no_image : string)
    (meta : ExtractedResult -> list (string * json)) : M ToolEnvelope :=
  do result <- extractResult response outputDir;
  if negb (truthy_str (imagePath result)) then ret (toolError no_image)
  else
    do image <- first_image_data response;
    ret (toolResultWithImage (JObj (meta result)) image).

Definition generate_meta (a : GenerateArgs) (result : ExtractedResult)
  : list (string * json) :=
  [("saved_to", nullable (imagePath result));
   ("model", JStr (model_name (g_model a)));
   ("aspect_ratio", JStr (g_aspect_ratio a));
   ("image_size", JStr (g_image_size a));
   ("description", nullable (res_text result))].

Definition edit_meta (a : EditArgs) (result : ExtractedResult) : list (string * json) :=
  [("saved_to", nullable (imagePath result));
   ("source", JStr (e_image_path a));
   ("instruction", JStr (e_instruction a));
   ("model", JStr (model_name (e_model a)));
   ("description", nullable (res_text result))].

Definition compose_meta (a : ComposeArgs) (result : ExtractedResult)
  : list (string * json) :=
  [("saved_to", nullable (imagePath result));
   ("sources", JArr (map JStr (c_image_paths a)));
   ("instruction", JStr (c_instruction a));
   ("model", JStr (model_name (c_model a)));
   ("description", nullable (res_text result))].

(** What the handler boundary makes of its [try] block: a returned
    envelope passes through, a thrown error becomes the error envelope
    whose single text item is the error's message behind [prefix]. *)
Definition caught_at_boundary (prefix : string) (body handler : M ToolEnvelope) : Prop :=
  forall w, exists env w',
    handler w = (Return env, w')
    /\ match body w with
       | (Return env0, w1) => env = env0 /\ w' = w1
       | (Throw e, w1) =>
           env = toolError (prefix +:+ error_message e)
           /\ isError env = true
           /\ env_content env = [TextItem (prefix +:+ error_message e)]
           /\ w' = w1
       end.

(** On a success, the inline item is the payload saved first and the file
    at [saved_to] holds the payload saved last: the file holds the image
    returned inline exactly when the two payloads decode to the same
    bytes, as they do when there is one image part. *)
Definition inline_first_saved_last (request : M GeminiResponse) (handler : M ToolEnvelope)
  : Prop :=
  forall w env w',
    handler w = (Return env, w') ->
    isError env = false ->
    exists r w1 first others d_first d_last meta path,
      request w = (Return r, w1)
      /\ candidates r = Some (first :: others)
      /\ head (image_payloads (parts (content first))) = Some d_first
      /\ last (image_payloads (parts (content first))) = Some d_last
      /\ env_content env
         = [ImageItem d_first "image/png"; TextItem (Stringify.stringify (JObj meta))]
      /\ lookup_field "saved_to" meta = Some (JStr path)
      /\ files w' !! path = Some (base64_decode d_last)
      /\ (length (image_payloads (parts (content first))) = 1%nat -> d_first = d_last)
      /\ (files w' !! path = Some (base64_decode d_first)
          <-> base64_decode d_first = base64_decode d_last).

(** ** Worlds, responses and calls to run the code on *)

(** A clock that starts at a fixed millisecond and advances by one per
    reading. *)
Definition ticking_clock (n : nat) : Z := Z.of_nat n + 1700000000000.

(** No files, every write allowed, the ticking clock, and a network on
    which every request fails. *)
Definition quiet_world : World :=
  mkWorld ∅ (fun _ => None) ticking_clock 0
          (fun _ => FetchRejected "fetch failed") [] (fun _ => None).

(** The same world with [reply] as the answer to every request. *)
Definition world_replying (reply : HttpResponse) : World :=
  mkWorld ∅ (fun _ => None) ticking_clock 0
          (fun _ => FetchResolved reply) [] (fun _ => None).

Definition bytes_of (s : string) : list byte := String.list_byte_of_string s.

(** A world holding two images, with the network of [quiet_world]. *)
Definition world_with_images : World :=
  mkWorld (<["/photos/cat.JPG" := bytes_of "foobar"]> (<["scan.tiff" := bytes_of "fo"]> ∅))
          (fun _ => None) ticking_clock 0
          (fun _ => FetchRejected "fetch failed") [] (fun _ => None).

(** A world holding a JPEG and a file named just [.jpg]. *)
Definition world_with_jpgs : World :=
  mkWorld (<["/photos/dog.jpg" := bytes_of "foo"]> (<["/tmp/.jpg" := bytes_of "fo"]> ∅))
          (fun _ => None) ticking_clock 0
          (fun _ => FetchRejected "fetch failed") [] (fun _ => None).

(** A world in which [/photos] is a directory. *)
Definition world_with_directory : World :=
  mkWorld (<["/photos/cat.png" := bytes_of "foo"]> ∅) (fun _ => None) ticking_clock 0
          (fun _ => FetchRejected "fetch failed") []
          (fun path => if String.eqb path "/photos"
                       then Some "EISDIR: illegal operation on a directory, read"
                       else None).

(** A world holding one image, in which every request is answered by
    [reply]. *)
Definition world_with_cat (reply : HttpResponse) : World :=
  mkWorld (<["/photos/cat.png" := bytes_of "foo"]> ∅) (fun _ => None)
          ticking_clock 0 (fun _ => FetchResolved reply) [] (fun _ => None).

Definition ok_reply (r : GeminiResponse) : HttpResponse :=
  mkHttpResponse 200 "OK" None (Parsed r).

(** A 429 response whose body is the four characters [null]. *)
Definition rate_limited_null : HttpResponse :=
  mkHttpResponse 429 "Too Many Requests" (Some JNull) (Parsed (mkResponse None None)).


(** A response whose only part is a text. *)
Definition refusal : GeminiResponse :=
  mkResponse (Some [mkCandidate (mkContent [mkPart (Some "I cannot draw that.") None] "model")])
             None.

(** A response with two image parts of different payloads around a text. *)
Definition two_images : GeminiResponse :=
  mkResponse
    (Some [mkCandidate
             (mkContent [mkPart None (Some (mkInlineData "image/png" "QQ=="));
                         mkPart (Some "done") None;
                         mkPart None (Some (mkInlineData "image/png" "Qg=="))] "model")])
    None.

(** A response whose only part is an image. *)
Definition image_only : GeminiResponse :=
  mkResponse
    (Some [mkCandidate (mkContent [mkPart None (Some (mkInlineData "image/png" "QQ=="))] "model")])
    None.

Definition text_only_options : GenerateOptions :=
  mkOptions flash [mkPart (Some "a cat") None] ["TEXT"; "IMAGE"] (Some "1:1") (Some "1K").

Definition cat_call : GenerateArgs := mkGenerateArgs "a cat" flash "1:1" "1K" ".".

Definition describe_call : DescribeArgs :=
  mkDescribeArgs "/photos/cat.png" "Describe this image in detail." flash.

(** The arguments of a [compose_images] call that names its image paths,
    instruction and model and leaves the rest to the defaults. *)
Definition compose_call (paths : list string) (instruction : string) (model : ModelChoice)
  : json :=
  JObj [("image_paths", JArr (map JStr paths));
        ("instruction", JStr instruction);
        ("model", JStr (model_name model))].

(** ** What a step leaves of the world *)

(** The world after a request has left the process. *)
Definition after_fetch (w : World) (req : HttpRequest) : World :=
  mkWorld (files w) (write_refused w) (clock w) (clock_reads w) (remote w)
          (sent w ++ [req]) (read_refused w).

(** A world whose clock stands still. *)
Definition stalled_world : World :=
  mkWorld ∅ (fun _ => None) (fun _ => 1700000000000) 0
          (fun _ => FetchRejected "fetch failed") [] (fun _ => None).

(** Two saves into the same directory, one after the other. *)
Definition save_twice (d1 d2 outputDir : string) : M (string * string) :=
  do p1 <- saveBase64Image d1 outputDir;
  do p2 <- saveBase64Image d2 outputDir;
  ret (p1, p2).

(** The parts [extractResult] looks at: those of the first candidate. *)
Definition first_parts (r : GeminiResponse) : list GeminiPart :=
  match candidates r with
  | Some (first :: _) => parts (content first)
  | _ => []
  end.

(** A response with one candidate made of the given parts. *)
Definition response_of (ps : list GeminiPart) (err : option ErrorDescriptor)
  : GeminiResponse :=
  mkResponse (Some [mkCandidate (mkContent ps "model")]) err.

Definition image_A : GeminiPart := mkPart None (Some (mkInlineData "image/png" "QQ==")).
Definition image_B : GeminiPart := mkPart None (Some (mkInlineData "image/png" "Qg==")).

(** A world in which no write is allowed. *)
Definition read_only_world : World :=
  mkWorld ∅ (fun _ => Some "EROFS: read-only file system") ticking_clock 0
          (fun _ => FetchRejected "fetch failed") [] (fun _ => None).

(** A world in which the disk is full from the second millisecond on. *)
Definition filling_world : World :=
  mkWorld ∅
          (fun path => if String.eqb path "nano-banana-1700000000000.png" then None
                       else Some "ENOSPC: no space left on device")
          ticking_clock 0 (fun _ => FetchRejected "fetch failed") [] (fun _ => None).

(** ** What the schemas let through *)

Definition IMAGE_SIZES : list string := ["1K"; "2K"; "4K"].

Definition MODEL_NAMES : list string := ["flash"; "pro"].

(** A property that is left out, or is one of the listed strings. *)
Definition absent_or_one_of (v : value) (allowed : list string) : Prop :=
  v = None \/ exists s, v = Some (JStr s) /\ s ∈ allowed.

(** A property that is left out, or is a string. *)
Definition absent_or_string (v : value) : Prop :=
  v = None \/ exists s, v = Some (JStr s).

(** The argument objects [generate_image] is run on. *)
Definition generate_image_valid (args : json) : Prop :=
  exists fields,
    args = JObj fields
    /\ (exists prompt, lookup_field "prompt" fields = Some (JStr prompt) /\ prompt <> "")
    /\ absent_or_one_of (lookup_field "model" fields) MODEL_NAMES
    /\ absent_or_one_of (lookup_field "aspect_ratio" fields) ASPECT_RATIOS
    /\ absent_or_one_of (lookup_field "image_size" fields) IMAGE_SIZES
    /\ absent_or_string (lookup_field "output_dir" fields).

(** The [generationConfig] with both fields of [imageConfig]. *)
Definition full_config (ratio size : string) : list (string * json) :=
  [("responseModalities", JArr [JStr "TEXT"; JStr "IMAGE"]);
   ("imageConfig", JObj [("aspectRatio", JStr ratio); ("imageSize", JStr size)])].

(** The [generationConfig] with the size alone. *)
Definition size_only_config (size : string) : list (string * json) :=
  [("responseModalities", JArr [JStr "TEXT"; JStr "IMAGE"]);
   ("imageConfig", JObj [("imageSize", JStr size)])].

(** ** The handlers, stage by stage *)

(** What reading an image yields, as a function of the files. *)
Definition image_of_file (w : World) (path : string) : option ImageData :=
  match read_refused w path, files w !! path with
  | None, Some bytes =>
      Some (mkImageData (Base64.encode bytes)
              (mime_for_extension (toLowerCase (extname path))))
  | _, _ => None
  end.

(** What the handler boundary makes of an outcome of its [try] block. *)
Definition at_boundary (prefix : string) (out : Outcome ToolEnvelope * World)
  : Outcome ToolEnvelope * World :=
  match out with
  | (Return env, w) => (Return env, w)
  | (Throw e, w) => (Return (toolError (prefix +:+ error_message e)), w)
  end.


(** An error descriptor and no candidates, in a 200 response. *)
Definition blocked : GeminiResponse :=
  mkResponse None (Some (mkErrorDescriptor "blocked" (Some 403))).

Definition edit_call : EditArgs :=
  mkEditArgs "/photos/cat.png" "add sunglasses" flash None "1K" ".".

Definition compose_two : ComposeArgs :=
  mkComposeArgs ["/photos/cat.png"; "/photos/dog.png"] "blend" pro "1:1" "1K" ".".

(** A 429 response with the error body of the service. *)
Definition rate_limited : HttpResponse :=
  mkHttpResponse 429 "Too Many Requests"
    (Some (JObj [("error", JObj [("code", JNum 429); ("message", JStr "quota exceeded")])]))
    (Malformed "unused").

(** ** The MIME type a response declares *)

(** The same part, its declared MIME type rewritten by [f]. *)
Definition relabel_part (f : string -> string) (p : GeminiPart) : GeminiPart :=
  mkPart (text p)
         (match inlineData p with
          | Some d => Some (mkInlineData (f (mimeType d)) (data d))
          | None => None
          end).

Definition relabel_candidate (f : string -> string) (c : GeminiCandidate)
  : GeminiCandidate :=
  mkCandidate (mkContent (map (relabel_part f) (parts (content c))) (role (content c))).

(** The same response, the MIME type of every inline image rewritten. *)
Definition relabel (f : string -> string) (r : GeminiResponse) : GeminiResponse :=
  mkResponse (match candidates r with
              | Some cs => Some (map (relabel_candidate f) cs)
              | None => None
              end)
             (error r).

(** A world in which every request is answered by [reply]. *)
Definition answers_with (w : World) (reply : HttpResponse) : Prop :=
  forall req, remote w req = FetchResolved reply.

End Vocabulary.

(** * Properties *)

(** ** Extraction without candidates *)

Section NoCandidates.

Context {rt : NodeRuntime}.

Lemma status_thrown_nonzero e c :
  err_code e = Some c -> c <> 0 -> status_thrown e = code_or_500 e.
Proof.
  intros Hc Hnz. unfold status_thrown, code_or_500. rewrite Hc.
  destruct (Z.eqb_spec c 0); [contradiction | reflexivity].
Qed.

Lemma status_thrown_unset e : err_code e = None -> status_thrown e = 500.
Proof. intros Hc. unfold status_thrown. now rewrite Hc. Qed.

Lemma extractResult_error_only (r : GeminiResponse) (e : ErrorDescriptor)
    (outputDir : string) (w : World) :
  no_candidates r = true ->
  error r = Some e ->
  extractResult r outputDir w
  = (Throw (GeminiApiError (status_thrown e) (err_message e)), w).
Proof.
  unfold no_candidates, extractResult. intros Hnone ->.
  unfold throw, status_thrown, num_or, truthy_num.
  destruct (candidates r) as [[|c cs]|]; try discriminate;
    destruct (err_code e) as [c'|]; try reflexivity; destruct (Z.eqb c' 0); reflexivity.
Qed.

Lemma extractResult_nothing (r : GeminiResponse) (outputDir : string) (w : World) :
  no_candidates r = true ->
  error r = None ->
  extractResult r outputDir w = (Return (mkExtracted None None), w).
Proof.
  unfold no_candidates, extractResult. intros Hnone ->.
  destruct (candidates r) as [[|c cs]|]; try discriminate; reflexivity.
Qed.

(** C1, as amended. When [candidates] is absent or empty, an error
    descriptor makes [extractResult] throw a [GeminiApiError] with the
    descriptor's message and its code, 500 standing in for a code that is
    unset or zero; without a descriptor it returns both fields null. The
    world is left as it was. *)
Theorem extractResult_no_candidates (r : GeminiResponse) (outputDir : string) (w : World) :
  no_candidates r = true ->
  extractResult r outputDir w =
    match error r with
    | Some e => (Throw (GeminiApiError (status_thrown e) (err_message e)), w)
    | None => (Return (mkExtracted None None), w)
    end.
Proof.
  intros Hnone. destruct (error r) as [e|] eqn:Herror.
  - now apply extractResult_error_only.
  - now apply extractResult_nothing.
Qed.

End NoCandidates.

(** The two simulated responses of the specification: [candidates: []]
    without an error, and an error with code 403 and no candidates. *)
Lemma extractResult_no_candidates_witness :
  extractResult (rt := Posix.runtime) (mkResponse (Some []) None) "." quiet_world
    = (Return (mkExtracted None None), quiet_world)
  /\ extractResult (rt := Posix.runtime) (mkResponse None (Some (mkErrorDescriptor "blocked" (Some 403)))) "."
       quiet_world
     = (Throw (GeminiApiError 403 "blocked"), quiet_world).
Proof.
  split.
  - exact (extractResult_no_candidates (mkResponse (Some []) None) "." quiet_world eq_refl).
  - exact (extractResult_no_candidates
             (mkResponse None (Some (mkErrorDescriptor "blocked" (Some 403)))) "."
             quiet_world eq_refl).
Defined.

(** A descriptor whose code is set to zero: the error thrown carries 500,
    not the descriptor's code. *)
Lemma extractResult_code_zero :
  let e := mkErrorDescriptor "blocked" (Some 0) in
  let r := mkResponse None (Some e) in
  no_candidates r = true
  /\ extractResult (rt := Posix.runtime) r "." quiet_world
     = (Throw (GeminiApiError 500 "blocked"), quiet_world)
  /\ extractResult (rt := Posix.runtime) r "." quiet_world
     <> (Throw (GeminiApiError (code_or_500 e) (err_message e)), quiet_world).
Proof.
  cbn zeta. split; [reflexivity|]. split; [reflexivity|].
  intros Heq. discriminate Heq.
Qed.

(** ** The endpoint client: failure path *)

Section FailurePath.

Context {rt : NodeRuntime}.

Lemma get_prop_not_null (v : json) (k : string) :
  v <> JNull -> get_prop v k = Return (prop v k).
Proof. destruct v; intros Hv; try reflexivity. now contradiction Hv. Qed.

Lemma get_prop_opt_total (v : value) (k : string) :
  get_prop_opt v k = Return (match v with Some inner => prop inner k | None => None end).
Proof. destruct v as [[]|]; reflexivity. Qed.

Lemma truthy_some (v : value) : truthy v = true -> exists j, v = Some j.
Proof. destruct v as [j|]; [eauto | discriminate]. Qed.

Lemma derive_msg_not_null (body : json) (statusText : string) :
  body <> JNull ->
  derive_msg body statusText = Return (Some (message_by_fallback body statusText)).
Proof.
  intros Hv. unfold derive_msg, message_by_fallback, usable.
  rewrite !(get_prop_not_null _ _ Hv), get_prop_opt_total.
  destruct (truthy (prop body "message")) eqn:Hm1.
  { destruct (truthy_some _ Hm1) as (j & ->). reflexivity. }
  set (inner := match prop body "error" with
                | Some inner => prop inner "message"
                | None => None
                end).
  destruct (truthy inner) eqn:Hm2; [|reflexivity].
  destruct (truthy_some _ Hm2) as (j & ->). reflexivity.
Qed.

Lemma derive_msg_null (statusText : string) :
  derive_msg JNull statusText
  = Throw (TypeError "Cannot read properties of null (reading 'message')").
Proof. reflexivity. Qed.

Lemma failure_for_status (response : HttpResponse) :
  resp_status response = 429 \/ is_Some (message_text response) ->
  exists m, failure_for response = GeminiApiError (resp_status response) m.
Proof.
  unfold failure_for, api_error.
  destruct (Z.eqb_spec (resp_status response) 429) as [->|Hs]; [eauto|].
  intros [?|[text ->]]; [contradiction | eauto].
Qed.

(** For every body but the JSON value [null], malformed and absent ones
    included, a non-2xx response is raised as the typed error, unless
    the status is not 429 and the message chosen does not convert to a
    string. *)
Lemma generateContent_non2xx (options : GenerateOptions) (w : World) (response : HttpResponse) :
  remote w (build_request options) = FetchResolved response ->
  resp_ok response = false ->
  resp_error_body response <> Some JNull ->
  fst (generateContent options w) = Throw (failure_for response).
Proof.
  intros Hremote Hok Hbody.
  unfold generateContent, bind, fetch. rewrite Hremote, Hok. cbn [negb].
  unfold raise_for_status, bind, lift, failure_for, message_text, body_or_empty, ToString.
  rewrite derive_msg_not_null.
  2:{ destruct (resp_error_body response) as [j|]; [|discriminate].
      intros ->. now apply Hbody. }
  destruct (Z.eqb (resp_status response) 429); [reflexivity|].
  cbn [value_to_string]. now destruct (to_string _).
Qed.

(** When the body is the JSON value [null], reading [error.message]
    throws before the status is looked at, whatever the status is. *)
Lemma generateContent_null_body (options : GenerateOptions) (w : World) (response : HttpResponse) :
  remote w (build_request options) = FetchResolved response ->
  resp_ok response = false ->
  resp_error_body response = Some JNull ->
  fst (generateContent options w)
  = Throw (TypeError "Cannot read properties of null (reading 'message')").
Proof.
  intros Hremote Hok Hbody.
  unfold generateContent, bind, fetch. rewrite Hremote, Hok. cbn [negb].
  unfold raise_for_status, bind, lift. now rewrite Hbody.
Qed.

End FailurePath.

(** C2, at the failing input. A 429 response with the JSON body [null]
    makes [generateContent] throw a [TypeError] about reading [message]
    of null: the error is not a [GeminiApiError], carries no status, and
    its message is not the fixed rate-limit message. *)
Theorem generateContent_429_null_body :
  let outcome :=
    fst (generateContent (rt := Posix.runtime) text_only_options
           (world_replying rate_limited_null)) in
  resp_ok rate_limited_null = false
  /\ outcome = Throw (TypeError "Cannot read properties of null (reading 'message')")
  /\ outcome <> Throw (GeminiApiError 429 RATE_LIMIT_MESSAGE)
  /\ (forall e, outcome = Throw e -> is_GeminiApiError e = false).
Proof.
  cbn zeta.
  assert (Hrun : fst (generateContent (rt := Posix.runtime) text_only_options
                        (world_replying rate_limited_null))
                 = Throw (TypeError "Cannot read properties of null (reading 'message')")).
  { now apply (generateContent_null_body (rt := Posix.runtime) text_only_options
                 (world_replying rate_limited_null) rate_limited_null). }
  split; [reflexivity|]. split; [exact Hrun|]. rewrite Hrun. split.
  - discriminate.
  - intros e [= <-]. reflexivity.
Qed.

(** ** The endpoint client: request body *)

Section RequestBody.

Context {rt : NodeRuntime}.

Lemma truthy_str_given (s : option string) : truthy_str s = given s.
Proof. destruct s as [t|]; [|reflexivity]. unfold given; cbn. now destruct (String.eqb t ""). Qed.

Lemma generateContent_sends (options : GenerateOptions) (w : World) :
  sent (snd (generateContent options w)) = (sent w ++ [build_request options])%list.
Proof.
  unfold generateContent, bind, fetch.
  destruct (remote w (build_request options)) as [why|response]; [reflexivity|].
  destruct (negb (resp_ok response)).
  - unfold raise_for_status, bind, lift.
    destruct (derive_msg _ _) as [msg|e]; [|reflexivity].
    destruct (Z.eqb _ _); [reflexivity|]. now destruct (ToString msg).
  - destruct (resp_payload response); reflexivity.
Qed.

Lemma build_generationConfig_imageConfig (options : GenerateOptions) :
  lookup_field "imageConfig" (build_generationConfig options)
  = if includes "IMAGE" (responseModalities options)
       && (given (aspectRatio options) || given (imageSize options))
    then Some (JObj (supplied_subset options))
    else None.
Proof.
  unfold build_generationConfig, supplied_subset, if_str.
  rewrite <- !truthy_str_given.
  destruct (includes "IMAGE" (responseModalities options)); [|reflexivity].
  destruct (aspectRatio options) as [a|], (imageSize options) as [s|]; cbn;
    try destruct (String.eqb a ""); try destruct (String.eqb s ""); reflexivity.
Qed.

Lemma build_generationConfig_modalities (options : GenerateOptions) :
  lookup_field "responseModalities" (build_generationConfig options)
  = Some (JArr (map JStr (responseModalities options))).
Proof.
  unfold build_generationConfig.
  destruct (_ && _); reflexivity.
Qed.

(** C5, as amended. Every call sends exactly one request, whose body
    holds the [generationConfig] object; that object always has
    [responseModalities], and it has [imageConfig] exactly when IMAGE is
    among the modalities and at least one of [aspectRatio] and
    [imageSize] was supplied as a non-empty string, in which case
    [imageConfig] holds the non-empty ones of the two and nothing else. *)
Theorem generateContent_generationConfig (options : GenerateOptions) (w : World) :
  sent (snd (generateContent options w)) = (sent w ++ [build_request options])%list
  /\ prop (req_body (build_request options)) "generationConfig"
     = Some (JObj (build_generationConfig options))
  /\ lookup_field "responseModalities" (build_generationConfig options)
     = Some (JArr (map JStr (responseModalities options)))
  /\ lookup_field "imageConfig" (build_generationConfig options)
     = if includes "IMAGE" (responseModalities options)
          && (given (aspectRatio options) || given (imageSize options))
       then Some (JObj (supplied_subset options))
       else None.
Proof.
  split; [apply generateContent_sends|].
  split; [reflexivity|].
  split; [apply build_generationConfig_modalities | apply build_generationConfig_imageConfig].
Qed.

End RequestBody.

(** IMAGE is requested and [aspectRatio] is supplied, as the empty
    string: the request carries no [imageConfig]. *)
Lemma imageConfig_empty_aspectRatio :
  let options := mkOptions flash [mkPart (Some "a cat") None] ["TEXT"; "IMAGE"] (Some "") None in
  includes "IMAGE" (responseModalities options)
    && (supplied (aspectRatio options) || supplied (imageSize options)) = true
  /\ lookup_field "imageConfig" (build_generationConfig options) = None
  /\ ~ (is_Some (lookup_field "imageConfig" (build_generationConfig options))
        <-> includes "IMAGE" (responseModalities options)
              && (supplied (aspectRatio options) || supplied (imageSize options)) = true).
Proof.
  cbn zeta. split; [reflexivity|]. split; [reflexivity|].
  intros [_ Hback]. destruct (Hback eq_refl) as [v Hv]. discriminate Hv.
Qed.

(** Both fields supplied, one of them empty: [imageConfig] holds only the
    other one, not the supplied pair. *)
Example imageConfig_empty_imageSize :
  lookup_field "imageConfig"
    (build_generationConfig (mkOptions pro [] ["IMAGE"] (Some "16:9") (Some "")))
  = Some (JObj [("aspectRatio", JStr "16:9")]).
Proof. reflexivity. Qed.

(** ** Extraction from the first candidate *)

Section Extraction.

Context {rt : NodeRuntime}.

Lemma saveBase64Image_allowed (d outputDir : string) (w : World) :
  write_refused w (path_at outputDir w (clock_reads w)) = None ->
  saveBase64Image d outputDir w
  = (Return (path_at outputDir w (clock_reads w)), save_one d outputDir w).
Proof.
  intros Hw. unfold saveBase64Image, bind, Date_now, writeFileSync, save_one, path_at, filename in *.
  cbn [clock clock_reads write_refused files remote sent read_refused]. now rewrite Hw.
Qed.

Lemma saveBase64Image_returns (d outputDir : string) (w w' : World) (p : string) :
  saveBase64Image d outputDir w = (Return p, w') ->
  p = path_at outputDir w (clock_reads w) /\ w' = save_one d outputDir w.
Proof.
  unfold saveBase64Image, bind, Date_now, writeFileSync, path_at, save_one, filename.
  cbn [clock clock_reads write_refused files remote sent read_refused].
  destruct (write_refused w _); [discriminate|].
  intros [= <- <-]. split; reflexivity.
Qed.


Lemma nonempty_truthy (s : option string) :
  truthy_str s = match nonempty s with Some _ => true | None => false end.
Proof. destruct s as [t|]; [|reflexivity]. cbn. now destruct (String.eqb t ""). Qed.

(** One step of the loop on the accumulated texts. *)
Lemma text_step (part : GeminiPart) (acc : list string) :
  if_str (text part) (fun t => (acc ++ [t])%list) acc
  = (acc ++ nonempty_texts [part])%list.
Proof.
  unfold nonempty_texts, if_str. cbn. destruct (text part) as [t|]; cbn.
  - destruct (String.eqb t ""); cbn; [now rewrite app_nil_r | reflexivity].
  - now rewrite app_nil_r.
Qed.

Lemma nonempty_texts_cons (part : GeminiPart) (ps : list GeminiPart) :
  nonempty_texts (part :: ps) = (nonempty_texts [part] ++ nonempty_texts ps)%list.
Proof. unfold nonempty_texts. cbn. now destruct (nonempty (text part)). Qed.

(** When it returns, the loop has kept the non-empty texts and saved the
    non-empty payloads in order. *)
Lemma extract_loop_returns (ps : list GeminiPart) (outputDir : string) :
  forall acc recorded w ts p' w',
    extract_loop ps outputDir acc recorded w = (Return (ts, p'), w') ->
    ts = (acc ++ nonempty_texts ps)%list
    /\ p' = last_path (image_payloads ps) outputDir w recorded
    /\ w' = saved (image_payloads ps) outputDir w.
Proof.
  induction ps as [|part rest IH]; intros acc recorded w ts p' w' Hrun.
  - cbn in Hrun. injection Hrun as <- <- <-. now rewrite app_nil_r.
  - cbn [extract_loop] in Hrun. rewrite text_step in Hrun.
    rewrite nonempty_texts_cons, app_assoc.
    unfold image_payloads. cbn [omap list_omap].
    fold (image_payloads rest).
    unfold if_str in Hrun.
    destruct (payload part) as [d|] eqn:Hd; cbn [nonempty].
    + cbn [truthy_str] in Hrun.
      destruct (String.eqb d "") eqn:Hempty; cbn [negb] in Hrun.
      * now apply IH.
      * unfold bind in Hrun.
        destruct (saveBase64Image d outputDir w) as [[p|e] w1] eqn:Hsave; [|discriminate].
        apply saveBase64Image_returns in Hsave as [-> ->].
        cbn [saved last_path]. now apply IH.
    + now apply IH.
Qed.


Lemma saved_clock (ds : list string) (outputDir : string) :
  forall w, clock (saved ds outputDir w) = clock w
            /\ clock_reads (saved ds outputDir w) = (clock_reads w + length ds)%nat.
Proof.
  induction ds as [|d rest IH]; intros w; cbn [saved length].
  - split; [reflexivity | lia].
  - destruct (IH (save_one d outputDir w)) as [-> ->]. cbn. split; [reflexivity | lia].
Qed.

Lemma saved_app (ds ds' : list string) (outputDir : string) (w : World) :
  saved (ds ++ ds') outputDir w = saved ds' outputDir (saved ds outputDir w).
Proof. revert w. induction ds as [|d rest IH]; intros w; cbn; [reflexivity | apply IH]. Qed.

Lemma last_path_app (ds ds' : list string) (outputDir : string) (w : World) recorded :
  last_path (ds ++ ds') outputDir w recorded
  = last_path ds' outputDir (saved ds outputDir w) (last_path ds outputDir w recorded).
Proof.
  revert w recorded. induction ds as [|d rest IH]; intros w recorded; cbn;
    [reflexivity | apply IH].
Qed.

(** The recorded path is that of the last payload saved, and the file
    there holds that payload, decoded. *)
Lemma last_payload_saved (ds : list string) (d : string) (outputDir : string) (w : World)
    recorded :
  let path := path_at outputDir w (clock_reads w + length ds) in
  last_path (ds ++ [d]) outputDir w recorded = Some path
  /\ files (saved (ds ++ [d]) outputDir w) !! path = Some (base64_decode d).
Proof.
  cbn zeta. rewrite last_path_app, saved_app. cbn [last_path saved].
  destruct (saved_clock ds outputDir w) as [Hclock Hreads].
  unfold save_one. cbn [files]. unfold path_at. rewrite Hclock, Hreads.
  split; [reflexivity | apply lookup_insert_eq].
Qed.

Lemma last_snoc {A} (l : list A) :
  match last l with
  | None => l = []
  | Some x => exists l', l = (l' ++ [x])%list
  end.
Proof.
  induction l as [|x l IH] using rev_ind; [reflexivity|].
  rewrite last_snoc. eauto.
Qed.

End Extraction.

Section ExtractionTheorems.

Context {rt : NodeRuntime}.

Lemma extractResult_unfold (first : GeminiCandidate) (others : list GeminiCandidate)
    (err : option ErrorDescriptor) (outputDir : string) (w : World) :
  extractResult (mkResponse (Some (first :: others)) err) outputDir w
  = match extract_loop (parts (content first)) outputDir [] None w with
    | (Return (textParts, path), w') =>
        (Return (mkExtracted (if (0 <? length textParts)%nat
                              then Some (join newline textParts) else None) path), w')
    | (Throw e, w') => (Throw e, w')
    end.
Proof.
  unfold extractResult, bind. cbn [candidates imagePath res_text].
  destruct (extract_loop _ _ _ _ _) as [[[textParts path]|e] w']; [|reflexivity].
  destruct (0 <? length textParts)%nat; reflexivity.
Qed.

Lemma joined_length (ts : list string) :
  (if (0 <? length ts)%nat then Some (join newline ts) else None) = joined ts.
Proof. destruct ts; reflexivity. Qed.

(** What a returning extraction has done. *)
Lemma extractResult_returns (first : GeminiCandidate) (others : list GeminiCandidate)
    (err : option ErrorDescriptor) (outputDir : string) (w w' : World) (res : ExtractedResult) :
  extractResult (mkResponse (Some (first :: others)) err) outputDir w = (Return res, w') ->
  res_text res = joined (nonempty_texts (parts (content first)))
  /\ imagePath res = last_path (image_payloads (parts (content first))) outputDir w None
  /\ w' = saved (image_payloads (parts (content first))) outputDir w.
Proof.
  rewrite extractResult_unfold.
  destruct (extract_loop _ _ _ _ _) as [[[textParts path]|e] w1] eqn:Hloop; [|discriminate].
  intros [= <- <-]. apply extract_loop_returns in Hloop as (-> & -> & ->).
  cbn [res_text imagePath]. now rewrite joined_length.
Qed.


End ExtractionTheorems.



(** An empty text field between two others leaves no empty line. *)
Example extractResult_skips_empty_text :
  let ps := [mkPart (Some "A") None; mkPart (Some "") None; mkPart (Some "B") None] in
  let r := mkResponse (Some [mkCandidate (mkContent ps "model")]) None in
  fst (extractResult (rt := Posix.runtime) r "." quiet_world)
  = Return (mkExtracted (Some ("A" +:+ newline +:+ "B")) None)
  /\ joined (text_fields ps) = Some ("A" +:+ newline +:+ newline +:+ "B").
Proof. cbn zeta. split; reflexivity. Qed.

(** ** Reading an image *)

Section ReadImage.

Context {rt : NodeRuntime}.

Lemma mimeMap_lookup (ext : string) :
  if_str (mime_lookup ext mimeMap) (fun m => m) "image/png" = mime_for_extension ext.
Proof.
  unfold mime_for_extension, mimeMap, if_str. cbn [mime_lookup].
  repeat match goal with
         | |- context [String.eqb ext ?k] => destruct (String.eqb ext k); cbn; try reflexivity
         end.
Qed.

Lemma mime_for_unknown (ext : string) :
  ext ∉ known_extensions -> mime_for_extension ext = "image/png".
Proof.
  intros Hext. unfold mime_for_extension.
  repeat match goal with
         | |- context [String.eqb ext ?k] =>
             destruct (String.eqb_spec ext k) as [->|_];
             [exfalso; apply Hext; unfold known_extensions; set_solver | cbn]
         end.
  reflexivity.
Qed.

Lemma readImageAsBase64_readable (filePath : string) (w : World) (bytes : list byte) :
  read_refused w filePath = None ->
  files w !! filePath = Some bytes ->
  readImageAsBase64 filePath w
  = (Return (mkImageData (Base64.encode bytes)
               (mime_for_extension (toLowerCase (extname filePath)))), w).
Proof.
  intros Hread Hfile. unfold readImageAsBase64, bind, readFileSync, ret.
  rewrite Hread, Hfile. now rewrite mimeMap_lookup.
Qed.

(** A path that cannot be read makes the read throw. *)
Lemma readImageAsBase64_failure (filePath : string) (w : World) (e : JsError) :
  read_failure w filePath = Some e ->
  readImageAsBase64 filePath w = (Throw e, w).
Proof.
  unfold read_failure, readImageAsBase64, bind, readFileSync.
  destruct (read_refused w filePath) as [why|]; [now intros [= <-]|].
  destruct (files w !! filePath) as [bytes|]; [discriminate | now intros [= <-]].
Qed.

End ReadImage.

(** Integers as JavaScript prints them: exactly up to 2^53, then the
    shortest decimal of the nearest double, in exponent notation from
    10^21 on. *)
Example Number_toString_vectors :
  map Number_toString
    [0; -7; 9007199254740991; 9007199254740993; 2 ^ 60; 2 ^ 64; 10 ^ 20; 10 ^ 21;
     999999999999999999999; 2 ^ 70; - 2 ^ 70; 123456789012345678901234567890;
     10 ^ 23; 2 ^ 1024 - 2 ^ 971; 10 ^ 309]
  = ["0"; "-7"; "9007199254740991"; "9007199254740992"; "1152921504606847000";
     "18446744073709552000"; "100000000000000000000"; "1e+21"; "1e+21";
     "1.1805916207174113e+21"; "-1.1805916207174113e+21"; "1.2345678901234568e+29";
     "1e+23"; "1.7976931348623157e+308"; "Infinity"].
Proof. vm_compute. reflexivity. Qed.

(** The test vectors of RFC 4648. *)
Example base64_vectors :
  map (fun s => Base64.encode (bytes_of s)) [""; "f"; "fo"; "foo"; "foob"; "fooba"; "foobar"]
  = [""; "Zg=="; "Zm8="; "Zm9v"; "Zm9vYg=="; "Zm9vYmE="; "Zm9vYmFy"].
Proof. vm_compute. reflexivity. Qed.

Lemma rev_chars_app (stem tail : string) :
  rev (String.list_ascii_of_string (stem +:+ tail))
  = (rev (String.list_ascii_of_string tail) ++ rev (String.list_ascii_of_string stem))%list.
Proof.
  induction stem as [|x stem IH]; [cbn; now rewrite app_nil_r|].
  change (String x stem +:+ tail) with (String x (stem +:+ tail)).
  cbn [String.list_ascii_of_string rev]. rewrite IH. now rewrite app_assoc.
Qed.

(** On the POSIX runtime, a path that ends in [.jpg] after a character
    other than the separator has the extension [.jpg]. *)
Lemma posix_extname_jpg (stem : string) (c : ascii) :
  Posix.is_slash c = false ->
  Posix.extname (stem +:+ String c ".jpg") = ".jpg".
Proof.
  intros Hc. unfold Posix.extname, Posix.last_component_rev.
  rewrite rev_chars_app.
  change (rev (String.list_ascii_of_string (String c ".jpg")))
    with ["g"%char; "p"%char; "j"%char; "."%char; c].
  set (tail := rev (String.list_ascii_of_string stem)).
  assert (Hcomp : Posix.take_until Posix.is_slash
                    (Posix.drop_while Posix.is_slash
                       (["g"%char; "p"%char; "j"%char; "."%char; c] ++ tail))
                  = ("g"%char :: "p"%char :: "j"%char :: "."%char :: c
                       :: Posix.take_until Posix.is_slash tail)%list).
  { change (Posix.drop_while Posix.is_slash
              (["g"%char; "p"%char; "j"%char; "."%char; c] ++ tail))
      with ("g"%char :: "p"%char :: "j"%char :: "."%char :: c :: tail)%list.
    change (Posix.take_until Posix.is_slash
              ("g"%char :: "p"%char :: "j"%char :: "."%char :: c :: tail))
      with ("g"%char :: "p"%char :: "j"%char :: "."%char
              :: (if Posix.is_slash c then [] else c :: Posix.take_until Posix.is_slash tail))%list.
    now rewrite Hc. }
  rewrite Hcomp. reflexivity.
Qed.

(** There, a file whose whole name is [.jpg] has no extension. *)
Lemma posix_extname_dot_jpg (dir : string) : Posix.extname (dir +:+ "/.jpg") = "".
Proof.
  unfold Posix.extname, Posix.last_component_rev. rewrite rev_chars_app.
  change (rev (String.list_ascii_of_string "/.jpg"))
    with ["g"%char; "p"%char; "j"%char; "."%char; Posix.slash].
  reflexivity.
Qed.

(** C8, as amended. Reading a file that can be read yields the base64
    encoding of its bytes and a MIME type that is a function of the
    lower-cased extension [extname] gives the path: the entry of the
    fixed table of six extensions, and [image/png] for an extension
    outside the table; the world is unchanged. On the POSIX runtime a
    path ending in [.jpg] after a character of the file name yields
    [image/jpeg], while a file named just [.jpg] has no extension and
    yields [image/png]. *)
Theorem readImageAsBase64_mime (filePath : string) (w : World) (bytes : list byte) :
  read_refused w filePath = None ->
  files w !! filePath = Some bytes ->
  (forall rt : NodeRuntime,
     let ext := toLowerCase (extname filePath) in
     readImageAsBase64 filePath w
     = (Return (mkImageData (Base64.encode bytes) (mime_for_extension ext)), w)
     /\ (ext ∉ known_extensions -> mime_for_extension ext = "image/png"))
  /\ map mime_for_extension known_extensions
     = ["image/png"; "image/jpeg"; "image/jpeg"; "image/gif"; "image/webp"; "image/bmp"]
  /\ (forall stem c,
        filePath = stem +:+ String c ".jpg" ->
        Posix.is_slash c = false ->
        readImageAsBase64 (rt := Posix.runtime) filePath w
        = (Return (mkImageData (Base64.encode bytes) "image/jpeg"), w))
  /\ (forall dir,
        filePath = dir +:+ "/.jpg" ->
        readImageAsBase64 (rt := Posix.runtime) filePath w
        = (Return (mkImageData (Base64.encode bytes) "image/png"), w)).
Proof.
  intros Hread Hfile. split; [|split; [reflexivity|split]].
  - intros rt ext. split; [|apply mime_for_unknown].
    now apply readImageAsBase64_readable.
  - intros stem c -> Hc.
    rewrite (readImageAsBase64_readable _ _ _ Hread Hfile).
    cbn [extname Posix.runtime]. now rewrite (posix_extname_jpg stem c Hc).
  - intros dir ->.
    rewrite (readImageAsBase64_readable _ _ _ Hread Hfile).
    cbn [extname Posix.runtime]. now rewrite posix_extname_dot_jpg.
Qed.

(** An upper-case [.JPG], a [.tiff] and a [.jpg], read on the POSIX
    runtime. *)
Lemma readImageAsBase64_mime_witness :
  readImageAsBase64 (rt := Posix.runtime) "/photos/cat.JPG" world_with_images
    = (Return (mkImageData "Zm9vYmFy" "image/jpeg"), world_with_images)
  /\ readImageAsBase64 (rt := Posix.runtime) "scan.tiff" world_with_images
    = (Return (mkImageData "Zm8=" "image/png"), world_with_images)
  /\ readImageAsBase64 (rt := Posix.runtime) "/photos/dog.jpg" world_with_jpgs
    = (Return (mkImageData "Zm9v" "image/jpeg"), world_with_jpgs).
Proof.
  split; [|split].
  - exact (proj1 (proj1 (readImageAsBase64_mime "/photos/cat.JPG" world_with_images
                           (bytes_of "foobar") eq_refl eq_refl) Posix.runtime)).
  - exact (proj1 (proj1 (readImageAsBase64_mime "scan.tiff" world_with_images
                           (bytes_of "fo") eq_refl eq_refl) Posix.runtime)).
  - exact (proj1 (proj2 (proj2 (readImageAsBase64_mime "/photos/dog.jpg" world_with_jpgs
                                  (bytes_of "foo") eq_refl eq_refl)))
             "/photos/do" "g"%char eq_refl eq_refl).
Defined.

(** A path that ends in [.jpg] and is not read as a JPEG: the file
    [/tmp/.jpg] is a file without an extension. *)
Lemma readImageAsBase64_dot_jpg :
  "/tmp/.jpg" = "/tmp/" +:+ ".jpg"
  /\ files world_with_jpgs !! "/tmp/.jpg" = Some (bytes_of "fo")
  /\ extname (NodeRuntime := Posix.runtime) "/tmp/.jpg" = ""
  /\ readImageAsBase64 (rt := Posix.runtime) "/tmp/.jpg" world_with_jpgs
     = (Return (mkImageData "Zm8=" "image/png"), world_with_jpgs)
  /\ readImageAsBase64 (rt := Posix.runtime) "/tmp/.jpg" world_with_jpgs
     <> (Return (mkImageData "Zm8=" "image/jpeg"), world_with_jpgs).
Proof.
  assert (Hrun : readImageAsBase64 (rt := Posix.runtime) "/tmp/.jpg" world_with_jpgs
                 = (Return (mkImageData "Zm8=" "image/png"), world_with_jpgs))
    by reflexivity.
  split; [reflexivity|]. split; [reflexivity|]. split; [reflexivity|].
  split; [exact Hrun|]. rewrite Hrun. intros Heq. discriminate Heq.
Qed.

(** ** The handlers *)

Section HandlerLemmas.

Context {rt : NodeRuntime}.

Lemma bind_assoc {A B C} (m : M A) (f : A -> M B) (g : B -> M C) (w : World) :
  bind (bind m f) g w = bind m (fun a => bind (f a) g) w.
Proof. unfold bind. destruct (m w) as [[a|e] w1]; reflexivity. Qed.

Lemma generate_image_body_split (a : GenerateArgs) (w : World) :
  generate_image_body a w
  = bind (generate_request a)
      (fun r => image_reply r (g_output_dir a) NO_IMAGE_GENERATE (generate_meta a)) w.
Proof. reflexivity. Qed.

Lemma edit_image_body_split (a : EditArgs) (w : World) :
  edit_image_body a w
  = bind (edit_request a)
      (fun r => image_reply r (e_output_dir a) NO_IMAGE_EDIT (edit_meta a)) w.
Proof. unfold edit_request. rewrite bind_assoc. reflexivity. Qed.

Lemma compose_images_body_split (a : ComposeArgs) (w : World) :
  compose_images_body a w
  = bind (compose_request a)
      (fun r => image_reply r (c_output_dir a) NO_IMAGE_COMPOSE (compose_meta a)) w.
Proof. unfold compose_request. rewrite bind_assoc. reflexivity. Qed.

(** [find] with the loop's own test returns the part whose payload the
    loop saves first. *)
Lemma find_has_image (ps : list GeminiPart) :
  match head (image_payloads ps) with
  | Some d => exists p idata, List.find has_image ps = Some p
                              /\ inlineData p = Some idata /\ data idata = d
  | None => List.find has_image ps = None
  end.
Proof.
  induction ps as [|p rest IH]; [reflexivity|].
  unfold image_payloads in *. cbn [omap list_omap List.find].
  unfold has_image at 1 3. rewrite nonempty_truthy.
  destruct (nonempty (payload p)) as [d|] eqn:Hd; cbn [head]; [|exact IH].
  unfold payload, nonempty in Hd.
  destruct (inlineData p) as [idata|] eqn:Hidata; [|discriminate].
  destruct (String.eqb (data idata) ""); [discriminate|].
  injection Hd as <-. eauto.
Qed.

Lemma no_image_payloads (ps : list GeminiPart) :
  forallb (fun p => negb (has_image p)) ps = true -> image_payloads ps = [].
Proof.
  induction ps as [|p rest IH]; [reflexivity|].
  cbn [forallb]. intros [Hp Hrest]%andb_prop.
  unfold image_payloads in *. cbn [omap list_omap].
  unfold has_image in Hp. rewrite nonempty_truthy in Hp.
  destruct (nonempty (payload p)); [discriminate | now apply IH].
Qed.

Lemma head_last_single {A} (l : list A) : length l = 1%nat -> head l = last l.
Proof. destruct l as [|x [|y l]]; try discriminate. reflexivity. Qed.

(** A success of the reply stage: the inline item carries the payload
    saved first, the file at the recorded path holds the payload saved
    last. *)
Lemma image_reply_success (r : GeminiResponse) (outputDir no_image : string)
    (meta : ExtractedResult -> list (string * json)) (w w' : World) (env : ToolEnvelope) :
  image_reply r outputDir no_image meta w = (Return env, w') ->
  isError env = false ->
  exists first others res d_first d_last path,
    candidates r = Some (first :: others)
    /\ head (image_payloads (parts (content first))) = Some d_first
    /\ last (image_payloads (parts (content first))) = Some d_last
    /\ imagePath res = Some path
    /\ env = toolResultWithImage (JObj (meta res)) d_first
    /\ files w' !! path = Some (base64_decode d_last).
Proof.
  unfold image_reply, bind. intros Hrun Hok.
  destruct (extractResult r outputDir w) as [[res|e] w1] eqn:Hextract; [|discriminate].
  destruct (truthy_str (imagePath res)) eqn:Hpath; cbn [negb] in Hrun;
    [|injection Hrun as <- _; discriminate].
  destruct r as [[[|first others]|] err].
  - destruct err as [e|];
      [rewrite (extractResult_error_only _ e) in Hextract by reflexivity; discriminate|].
    rewrite extractResult_nothing in Hextract by reflexivity.
    injection Hextract as <- _. discriminate.
  - apply extractResult_returns in Hextract as (_ & Himage & ->).
    pose proof (last_snoc (image_payloads (parts (content first)))) as Hlast.
    pose proof (find_has_image (parts (content first))) as Hfind.
    destruct (last (image_payloads (parts (content first)))) as [d_last|] eqn:Hl.
    + destruct Hlast as (ds & Hds).
      destruct (head (image_payloads (parts (content first)))) as [d_first|] eqn:Hh;
        [|rewrite Hds in Hh; destruct ds; discriminate].
      destruct Hfind as (p & idata & Hp & Hidata & Hdata).
      unfold first_image_data in Hrun. cbn [candidates] in Hrun.
      rewrite Hp, Hidata in Hrun. injection Hrun as <- <-.
      destruct (last_payload_saved ds d_last outputDir w None) as [Hrec Hfile].
      rewrite Hds, Hrec in Himage.
      exists first, others, res, d_first, d_last,
        (path_at outputDir w (clock_reads w + length ds)).
      rewrite Hdata. split; [reflexivity|]. split; [exact Hh|]. split; [exact Hl|].
      split; [exact Himage|]. split; [reflexivity|]. rewrite Hds. exact Hfile.
    + rewrite Hlast in Himage. cbn in Himage. rewrite Himage in Hpath. discriminate.
  - destruct err as [e|];
      [rewrite (extractResult_error_only _ e) in Hextract by reflexivity; discriminate|].
    rewrite extractResult_nothing in Hextract by reflexivity.
    injection Hextract as <- _. discriminate.
Qed.

End HandlerLemmas.

Section HandlerTheorems.

Context {rt : NodeRuntime}.

Lemma try_catch_caught (prefix : string) (body : M ToolEnvelope) :
  caught_at_boundary prefix body
    (try_catch body (fun error => ret (toolError (prefix +:+ error_message error)))).
Proof.
  intros w. unfold try_catch, ret.
  destruct (body w) as [[env0|e] w1].
  - exists env0, w1. repeat split.
  - exists (toolError (prefix +:+ error_message e)), w1. repeat split.
Qed.

(** So the dispatcher never sees a thrown error. *)
Lemma call_tool_returns (name : string) (args : json) (w : World) :
  is_return (fst (call_tool name args w)) = true.
Proof.
  assert (Hg : forall a, caught_at_boundary "Failed to generate image: "
                           (generate_image_body a) (generate_image a))
    by (intros a; apply try_catch_caught).
  assert (He : forall a, caught_at_boundary "Failed to edit image: "
                           (edit_image_body a) (edit_image a))
    by (intros a; apply try_catch_caught).
  assert (Hc : forall a, caught_at_boundary "Failed to compose images: "
                           (compose_images_body a) (compose_images a))
    by (intros a; apply try_catch_caught).
  assert (Hd : forall a, caught_at_boundary "Failed to describe image: "
                           (describe_image_body a) (describe_image a))
    by (intros a; apply try_catch_caught).
  unfold call_tool, run_tool.
  repeat match goal with
         | |- context [if ?b then _ else _] => destruct b
         | |- context [match ?schema args with _ => _ end] => destruct (schema args) as [a|]
         end; try reflexivity; unfold bind.
  - destruct (Hg a w) as (env & w' & -> & _). reflexivity.
  - destruct (He a w) as (env & w' & -> & _). reflexivity.
  - destruct (Hc a w) as (env & w' & -> & _). reflexivity.
  - destruct (Hd a w) as (env & w' & -> & _). reflexivity.
Qed.

(** C4. Each of the four handlers always returns an envelope: whatever
    its [try] block throws, during part assembly, the endpoint call or
    extraction, comes back as the error envelope with [isError] set and
    one text item, the error's message prefixed with the operation. No
    handler ever ends in a thrown error. *)
Theorem handlers_catch_everything :
  (forall a, caught_at_boundary "Failed to generate image: "
               (generate_image_body a) (generate_image a))
  /\ (forall a, caught_at_boundary "Failed to edit image: "
                  (edit_image_body a) (edit_image a))
  /\ (forall a, caught_at_boundary "Failed to compose images: "
                  (compose_images_body a) (compose_images a))
  /\ (forall a, caught_at_boundary "Failed to describe image: "
                  (describe_image_body a) (describe_image a)).
Proof.
  split; [|split; [|split]]; intros a; apply try_catch_caught.
Qed.

(** An error of the endpoint call, of part assembly and of extraction,
    each as the handler hands it back. *)
Lemma generate_image_endpoint_error (a : GenerateArgs) (w w1 : World) (e : JsError) :
  generateContent (generate_options a) w = (Throw e, w1) ->
  generate_image a w
  = (Return (toolError ("Failed to generate image: " +:+ error_message e)), w1).
Proof.
  intros Hcall. unfold generate_image, try_catch. rewrite generate_image_body_split.
  unfold bind, generate_request. now rewrite Hcall.
Qed.

Lemma generate_image_extraction_error (a : GenerateArgs) (w w1 w2 : World)
    (r : GeminiResponse) (e : JsError) :
  generateContent (generate_options a) w = (Return r, w1) ->
  extractResult r (g_output_dir a) w1 = (Throw e, w2) ->
  generate_image a w
  = (Return (toolError ("Failed to generate image: " +:+ error_message e)), w2).
Proof.
  intros Hcall Hextract. unfold generate_image, try_catch.
  rewrite generate_image_body_split.
  unfold bind, generate_request. rewrite Hcall. unfold image_reply, bind.
  now rewrite Hextract.
Qed.

Lemma edit_image_assembly_error (a : EditArgs) (w w0 : World) (e : JsError) :
  readImageAsBase64 (e_image_path a) w = (Throw e, w0) ->
  edit_image a w = (Return (toolError ("Failed to edit image: " +:+ error_message e)), w0).
Proof.
  intros Hread. unfold edit_image, try_catch, edit_image_body, bind. now rewrite Hread.
Qed.

Lemma compose_images_assembly_error (a : ComposeArgs) (w w0 : World) (e : JsError) :
  read_parts (c_image_paths a) w = (Throw e, w0) ->
  compose_images a w
  = (Return (toolError ("Failed to compose images: " +:+ error_message e)), w0).
Proof.
  intros Hread. unfold compose_images, try_catch, compose_images_body, bind.
  now rewrite Hread.
Qed.

Lemma describe_image_endpoint_error (a : DescribeArgs) (w w0 w1 : World) (img : ImageData)
    (e : JsError) :
  readImageAsBase64 (d_image_path a) w = (Return img, w0) ->
  generateContent (describe_options a img) w0 = (Throw e, w1) ->
  describe_image a w
  = (Return (toolError ("Failed to describe image: " +:+ error_message e)), w1).
Proof.
  intros Hread Hcall. unfold describe_image, try_catch, describe_image_body, bind.
  rewrite Hread. fold (image_part img). fold (describe_options a img). now rewrite Hcall.
Qed.

Lemma image_handler_success (request : M GeminiResponse) (body : M ToolEnvelope)
    (outputDir no_image prefix : string) (meta : ExtractedResult -> list (string * json)) :
  (forall w, body w = bind request (fun r => image_reply r outputDir no_image meta) w) ->
  (forall res, lookup_field "saved_to" (meta res) = Some (nullable (imagePath res))) ->
  inline_first_saved_last request
    (try_catch body (fun error => ret (toolError (prefix +:+ error_message error)))).
Proof.
  intros Hbody Hmeta w env w' Hrun Hok.
  unfold try_catch in Hrun. rewrite Hbody in Hrun. unfold bind in Hrun.
  destruct (request w) as [[r|e] w1] eqn:Hrequest;
    [|injection Hrun as <- _; discriminate].
  destruct (image_reply r outputDir no_image meta w1) as [[env0|e] w2] eqn:Hreply;
    [|injection Hrun as <- _; discriminate].
  injection Hrun as -> ->.
  destruct (image_reply_success _ _ _ _ _ _ _ Hreply Hok)
    as (first & others & res & d_first & d_last & path & Hc & Hh & Hl & Hp & -> & Hf).
  exists r, w1, first, others, d_first, d_last, (meta res), path.
  split; [reflexivity|]. split; [exact Hc|]. split; [exact Hh|]. split; [exact Hl|].
  split; [reflexivity|]. split; [now rewrite Hmeta, Hp|]. split; [exact Hf|]. split.
  - intros Hone. apply head_last_single in Hone. congruence.
  - rewrite Hf. split; [now intros [= ->] | now intros ->].
Qed.

(** C9, as amended. On every success of [generate_image], [edit_image]
    and [compose_images], the inline image item carries the payload of
    the first part of the first candidate that has inline image data,
    and the file at [saved_to] holds the decoded payload of the last
    such part. The image on disk is the image returned inline exactly
    when the first and the last payload decode to the same bytes: always
    when there is one such part, and with several parts whenever the
    last repeats the first, whatever lies between. *)
Theorem inline_image_first_file_last :
  (forall a, inline_first_saved_last (generate_request a) (generate_image a))
  /\ (forall a, inline_first_saved_last (edit_request a) (edit_image a))
  /\ (forall a, inline_first_saved_last (compose_request a) (compose_images a)).
Proof.
  split; [|split]; intros a.
  - apply (image_handler_success _ _ (g_output_dir a) NO_IMAGE_GENERATE _ (generate_meta a));
      [apply generate_image_body_split | reflexivity].
  - apply (image_handler_success _ _ (e_output_dir a) NO_IMAGE_EDIT _ (edit_meta a));
      [apply edit_image_body_split | reflexivity].
  - apply (image_handler_success _ _ (c_output_dir a) NO_IMAGE_COMPOSE _ (compose_meta a));
      [apply compose_images_body_split | reflexivity].
Qed.

Lemma joined_text_nonempty (ps : list GeminiPart) :
  joined_text ps = join newline (nonempty_texts ps).
Proof.
  unfold joined_text, nonempty_texts. f_equal.
  induction ps as [|p rest IH]; [reflexivity|].
  cbn [List.filter omap list_omap]. unfold has_text at 1. rewrite nonempty_truthy.
  destruct (text p) as [t|] eqn:Ht; cbn [nonempty]; [|exact IH].
  destruct (String.eqb t ""); cbn; [exact IH | now rewrite IH, Ht].
Qed.

Lemma joined_text_no_text (ps : list GeminiPart) :
  Forall (fun p => text p = None) ps -> joined_text ps = "".
Proof.
  intros Hnone. rewrite joined_text_nonempty.
  replace (nonempty_texts ps) with (@nil string); [reflexivity|].
  induction Hnone as [|p rest Hp _ IH]; [reflexivity|].
  unfold nonempty_texts in *. cbn [omap list_omap]. now rewrite Hp.
Qed.

(** C10. A [describe_image] call whose response has at least one
    candidate returns the success envelope: no error flag, and a single
    text item that is the JSON text of the metadata, with the image
    path, the description and the model. The description is the
    non-empty texts of the first candidate joined by newlines: the empty
    string when no part has a text field, and no error envelope. *)
Theorem describe_image_without_text (a : DescribeArgs) (w w0 w1 : World) (img : ImageData)
    (r : GeminiResponse) (first : GeminiCandidate) (others : list GeminiCandidate) :
  readImageAsBase64 (d_image_path a) w = (Return img, w0) ->
  generateContent (describe_options a img) w0 = (Return r, w1) ->
  candidates r = Some (first :: others) ->
  let description := joined_text (parts (content first)) in
  let metadata :=
    JObj [("image_path", JStr (d_image_path a));
          ("description", JStr description);
          ("model", JStr (model_name (d_model a)))] in
  (exists env,
     describe_image a w = (Return env, w1)
     /\ env = toolResult metadata
     /\ isError env = false
     /\ env_content env = [TextItem (Stringify.stringify metadata)])
  /\ lookup_field "description" [("image_path", JStr (d_image_path a));
                                 ("description", JStr description);
                                 ("model", JStr (model_name (d_model a)))]
     = Some (JStr description)
  /\ description = join newline (nonempty_texts (parts (content first)))
  /\ (Forall (fun p => text p = None) (parts (content first)) -> description = "").
Proof.
  intros Hread Hcall Hcand description metadata.
  split; [|split; [reflexivity|split; [apply joined_text_nonempty | apply joined_text_no_text]]].
  exists (toolResult metadata).
  split; [|split; [reflexivity|split; reflexivity]].
  unfold describe_image, try_catch, describe_image_body, bind.
  rewrite Hread. fold (image_part img). fold (describe_options a img).
  rewrite Hcall, Hcand. reflexivity.
Qed.

End HandlerTheorems.

(** ** Input validation of [compose_images] *)

Section Validation.

Context {rt : NodeRuntime}.

Lemma parse_items_strings (paths : list string) :
  parse_items (z_string 0) (map JStr paths) = Some paths.
Proof.
  induction paths as [|p rest IH]; [reflexivity|].
  cbn [map parse_items]. rewrite IH. reflexivity.
Qed.

Lemma z_array_out_of_range {A} (item : parser A) (lo hi : nat) (items : list json) :
  (length items < lo \/ hi < length items)%nat ->
  z_array item lo hi (Some (JArr items)) = None.
Proof.
  intros Hrange. unfold z_array.
  destruct (Nat.leb_spec lo (length items)), (Nat.leb_spec (length items) hi);
    try reflexivity; lia.
Qed.

Lemma z_array_in_range {A} (item : parser A) (lo hi : nat) (items : list json) :
  (lo <= length items <= hi)%nat ->
  z_array item lo hi (Some (JArr items)) = parse_items item items.
Proof.
  intros [Hlo Hhi]. unfold z_array.
  destruct (Nat.leb_spec lo (length items)), (Nat.leb_spec (length items) hi);
    try reflexivity; lia.
Qed.

(** C6. A [compose_images] call whose [image_paths] has no entry, or
    fifteen or more, fails the schema whatever its other arguments are,
    the model among them: the dispatcher answers without running the
    handler and the world, the log of requests sent included, is as it
    was. A call with one to fourteen paths and a non-empty instruction
    passes the schema for both models. *)
Theorem compose_images_path_count :
  (forall (args : json) (paths : list json) (w : World),
      field args "image_paths" = Some (Some (JArr paths)) ->
      (length paths = 0 \/ 15 <= length paths)%nat ->
      compose_images_schema args = None
      /\ call_tool "compose_images" args w = (Return InvalidParams, w)
      /\ sent (snd (call_tool "compose_images" args w)) = sent w)
  /\ (forall (paths : list string) (instruction : string) (model : ModelChoice),
         (1 <= length paths <= 14)%nat ->
         instruction <> "" ->
         compose_images_schema (compose_call paths instruction model)
         = Some (mkComposeArgs paths instruction model "1:1" "1K" ".")).
Proof.
  split.
  - intros args paths w Hfield Hlen.
    assert (Hschema : compose_images_schema args = None).
    { unfold compose_images_schema, parse_field. rewrite Hfield.
      rewrite z_array_out_of_range by lia. reflexivity. }
    split; [exact Hschema|].
    unfold call_tool, run_tool. cbn [String.eqb Ascii.eqb Bool.eqb andb].
    rewrite Hschema. split; reflexivity.
  - intros paths instruction model Hlen Hinstr.
    unfold compose_images_schema, compose_call, parse_field, field.
    cbn [lookup_field String.eqb Ascii.eqb Bool.eqb andb].
    rewrite z_array_in_range by (rewrite length_map; exact Hlen).
    rewrite parse_items_strings. cbn [mbind option_bind].
    destruct instruction as [|c rest]; [contradiction|].
    destruct model; reflexivity.
Qed.

End Validation.

(** Fifteen paths with the pro model are turned away with nothing sent;
    fourteen with the flash model are let through. *)
Lemma compose_images_path_count_witness :
  call_tool (rt := Posix.runtime) "compose_images"
    (compose_call (replicate 15 "/a.png") "blend" pro) quiet_world
    = (Return InvalidParams, quiet_world)
  /\ compose_images_schema (compose_call (replicate 14 "/a.png") "blend" flash)
     = Some (mkComposeArgs (replicate 14 "/a.png") "blend" flash "1:1" "1K" ".").
Proof.
  split.
  - refine (proj1 (proj2 (proj1 (compose_images_path_count (rt := Posix.runtime))
                            (compose_call (replicate 15 "/a.png") "blend" pro)
                            (map JStr (replicate 15 "/a.png")) quiet_world eq_refl _))).
    right. vm_compute. lia.
  - refine (proj2 (compose_images_path_count (rt := Posix.runtime))
              (replicate 14 "/a.png") "blend" flash _ _).
    + vm_compute. lia.
    + discriminate.
Defined.

(** ** The handlers on concrete calls *)

(** The endpoint answers with two images: the first comes back inline,
    the second is the one on disk. *)
Lemma inline_image_first_file_last_witness :
  exists env w' meta path,
    generate_image (rt := Posix.runtime) cat_call (world_replying (ok_reply two_images))
    = (Return env, w')
    /\ isError env = false
    /\ env_content env
       = [ImageItem "QQ==" "image/png"; TextItem (Stringify.stringify (JObj meta))]
    /\ lookup_field "saved_to" meta = Some (JStr path)
    /\ files w' !! path = Some (Posix.decode "Qg==")
    /\ files w' !! path <> Some (Posix.decode "QQ==").
Proof.
  assert (Hrun : exists env w',
             generate_image (rt := Posix.runtime) cat_call
               (world_replying (ok_reply two_images)) = (Return env, w')
             /\ isError env = false).
  { eexists _, _. split; [vm_compute; reflexivity | reflexivity]. }
  destruct Hrun as (env & w' & Hrun & Hok).
  assert (Hsent : exists w1,
             generate_request (rt := Posix.runtime) cat_call
               (world_replying (ok_reply two_images)) = (Return two_images, w1)).
  { eexists. vm_compute. reflexivity. }
  destruct Hsent as (w1' & Hsent).
  destruct (proj1 (inline_image_first_file_last (rt := Posix.runtime)) cat_call
              _ _ _ Hrun Hok)
    as (r & w1 & first & others & d_first & d_last & meta & path
        & Hrequest & Hcand & Hhead & Hlast & Hcontent & Hsaved & Hfile & _ & Hsame).
  rewrite Hsent in Hrequest. injection Hrequest as <- _.
  injection Hcand as <- _.
  injection Hhead as <-. injection Hlast as <-.
  exists env, w', meta, path.
  split; [exact Hrun|]. split; [exact Hok|]. split; [exact Hcontent|].
  split; [exact Hsaved|]. split; [exact Hfile|].
  intros Hinline. apply Hsame in Hinline. vm_compute in Hinline. discriminate Hinline.
Defined.

(** Three image parts with differing payloads, the last repeating the
    first: the image on disk is the image returned inline. *)
Lemma inline_image_is_saved_image :
  let out := generate_image (rt := Posix.runtime) cat_call
               (world_replying (ok_reply (response_of [image_A; image_B; image_A] None))) in
  image_payloads [image_A; image_B; image_A] = ["QQ=="; "Qg=="; "QQ=="]
  /\ Posix.decode "QQ==" <> Posix.decode "Qg=="
  /\ fst out
     = Return (toolResultWithImage
                 (JObj [("saved_to", JStr "nano-banana-1700000000002.png");
                        ("model", JStr "flash");
                        ("aspect_ratio", JStr "1:1");
                        ("image_size", JStr "1K");
                        ("description", JNull)])
                 "QQ==")
  /\ files (snd out) !! "nano-banana-1700000000002.png" = Some (Posix.decode "QQ==").
Proof.
  cbn zeta. split; [reflexivity|]. split; [vm_compute; discriminate|].
  split; vm_compute; reflexivity.
Qed.

(** The endpoint answers a description request with an image only. *)
Lemma describe_image_without_text_witness :
  exists env,
    describe_image (rt := Posix.runtime) describe_call (world_with_cat (ok_reply image_only))
    = (Return env,
       snd (generateContent (rt := Posix.runtime)
              (describe_options describe_call (mkImageData "Zm9v" "image/png"))
              (world_with_cat (ok_reply image_only))))
    /\ isError env = false
    /\ env_content env
       = [TextItem (Stringify.stringify
                      (JObj [("image_path", JStr "/photos/cat.png");
                             ("description", JStr "");
                             ("model", JStr "flash")]))].
Proof.
  destruct (proj1
    (describe_image_without_text (rt := Posix.runtime) describe_call
       (world_with_cat (ok_reply image_only)) (world_with_cat (ok_reply image_only))
       (snd (generateContent (rt := Posix.runtime)
               (describe_options describe_call (mkImageData "Zm9v" "image/png"))
               (world_with_cat (ok_reply image_only))))
       (mkImageData "Zm9v" "image/png") image_only
       (mkCandidate (mkContent [mkPart None (Some (mkInlineData "image/png" "QQ=="))] "model"))
       [] eq_refl eq_refl eq_refl))
    as (env & Hrun & _ & Herror & Hcontent).
  exists env. split; [exact Hrun|]. split; [exact Herror | exact Hcontent].
Defined.

(** Errors of each stage, as the caller sees them. *)

Example generate_image_network_failure :
  fst (generate_image (rt := Posix.runtime) cat_call quiet_world)
  = Return (toolError "Failed to generate image: fetch failed").
Proof. vm_compute. reflexivity. Qed.

Example edit_image_directory :
  fst (edit_image (rt := Posix.runtime)
         (mkEditArgs "/photos" "add sunglasses" flash None "1K" ".") world_with_directory)
  = Return (toolError
      "Failed to edit image: EISDIR: illegal operation on a directory, read").
Proof. vm_compute. reflexivity. Qed.

Example edit_image_missing_file :
  fst (edit_image (rt := Posix.runtime)
         (mkEditArgs "/missing.png" "add sunglasses" flash None "1K" ".") quiet_world)
  = Return (toolError
      "Failed to edit image: ENOENT: no such file or directory, open '/missing.png'").
Proof. vm_compute. reflexivity. Qed.

Example generate_image_blocked :
  fst (generate_image (rt := Posix.runtime) cat_call
         (world_replying
            (ok_reply (mkResponse None (Some (mkErrorDescriptor "blocked" (Some 403)))))))
  = Return (toolError "Failed to generate image: blocked").
Proof. vm_compute. reflexivity. Qed.

Example generate_image_rate_limited :
  fst (generate_image (rt := Posix.runtime) cat_call
         (world_replying
            (mkHttpResponse 429 "Too Many Requests"
               (Some (JObj [("error", JObj [("message", JStr "quota")])]))
               (Malformed "unused"))))
  = Return (toolError ("Failed to generate image: " +:+ RATE_LIMIT_MESSAGE)).
Proof. vm_compute. reflexivity. Qed.

Example generate_image_server_error :
  fst (generate_image (rt := Posix.runtime) cat_call
         (world_replying
            (mkHttpResponse 503 "Service Unavailable"
               (Some (JObj [("error", JObj [("message", JStr "overloaded")])]))
               (Malformed "unused"))))
  = Return (toolError "Failed to generate image: Gemini API error (503): overloaded").
Proof. vm_compute. reflexivity. Qed.

Example generate_image_unparsable_error_body :
  fst (generate_image (rt := Posix.runtime) cat_call
         (world_replying (mkHttpResponse 502 "Bad Gateway" None (Malformed "unused"))))
  = Return (toolError "Failed to generate image: Gemini API error (502): Bad Gateway").
Proof. vm_compute. reflexivity. Qed.

(** A message that is an object with a property [toString] of its own:
    the conversion throws before the typed error is built. *)
Example generate_image_unprintable_message :
  let reply := mkHttpResponse 500 "Internal Server Error" (Some unprintable_body)
                 (Malformed "unused") in
  fst (generateContent (rt := Posix.runtime) text_only_options (world_replying reply))
  = Throw (TypeError "Cannot convert object to primitive value")
  /\ fst (generate_image (rt := Posix.runtime) cat_call (world_replying reply))
     = Return (toolError
         "Failed to generate image: Cannot convert object to primitive value").
Proof. cbn zeta. split; vm_compute; reflexivity. Qed.

(** With status 429 the same body is not converted. *)
Example generate_image_unprintable_rate_limited :
  fst (generate_image (rt := Posix.runtime) cat_call
         (world_replying
            (mkHttpResponse 429 "Too Many Requests" (Some unprintable_body)
               (Malformed "unused"))))
  = Return (toolError ("Failed to generate image: " +:+ RATE_LIMIT_MESSAGE)).
Proof. vm_compute. reflexivity. Qed.

(** Messages that are not strings, as the template literal prints them. *)
Example generate_image_other_messages :
  map (fun message =>
         fst (generateContent (rt := Posix.runtime) text_only_options
                (world_replying
                   (mkHttpResponse 500 "Internal Server Error"
                      (Some (JObj [("message", message)])) (Malformed "unused")))))
      [JNum 42; JBool true; JObj [("code", JNum 7)];
       JArr [JStr "a"; JNull; JArr [JNum 1; JNum 2]]; JNum (2 ^ 70);
       JStr ""; JNum 0; JNull]
  = map (fun text => Throw (GeminiApiError 500 ("Gemini API error (500): " +:+ text)))
      ["42"; "true"; "[object Object]"; "a,,1,2"; "1.1805916207174113e+21";
       "Internal Server Error"; "Internal Server Error"; "Internal Server Error"].
Proof. vm_compute. reflexivity. Qed.

Example generate_image_write_refused :
  fst (generate_image (rt := Posix.runtime) cat_call
         (mkWorld ∅ (fun _ => Some "EACCES: permission denied") ticking_clock 0
                  (fun _ => FetchResolved (ok_reply image_only)) [] (fun _ => None)))
  = Return (toolError "Failed to generate image: EACCES: permission denied").
Proof. vm_compute. reflexivity. Qed.

(** The saved file of a successful call, and the metadata returned. *)
Example generate_image_success :
  let out := generate_image (rt := Posix.runtime) cat_call
               (world_replying (ok_reply image_only)) in
  fst out
  = Return (toolResultWithImage
              (JObj [("saved_to", JStr "nano-banana-1700000000000.png");
                     ("model", JStr "flash");
                     ("aspect_ratio", JStr "1:1");
                     ("image_size", JStr "1K");
                     ("description", JNull)])
              "QQ==")
  /\ files (snd out) !! "nano-banana-1700000000000.png" = Some (bytes_of "A").
Proof. vm_compute. split; reflexivity. Qed.

(** * Further properties of the code *)

(** ** What the endpoint client and the file helpers leave untouched *)

Section Frames.

Context {rt : NodeRuntime}.

Lemma generateContent_world (options : GenerateOptions) (w : World) :
  snd (generateContent options w) = after_fetch w (build_request options).
Proof.
  unfold generateContent, bind, fetch, after_fetch.
  destruct (remote w (build_request options)) as [why|response]; [reflexivity|].
  destruct (negb (resp_ok response)).
  - unfold raise_for_status, bind, lift.
    destruct (derive_msg _ _) as [msg|e]; [|reflexivity].
    destruct (Z.eqb _ _); [reflexivity|]. now destruct (ToString msg).
  - destruct (resp_payload response); reflexivity.
Qed.

(** X1. Whatever the endpoint answers and whether the call returns or
    throws, [generateContent] has sent exactly one request, the one built
    from its options, and has neither touched a file nor read the
    clock: there is no second attempt. *)
Theorem generateContent_one_request (options : GenerateOptions) (w : World) :
  sent (snd (generateContent options w)) = (sent w ++ [build_request options])%list
  /\ length (sent (snd (generateContent options w))) = S (length (sent w))
  /\ files (snd (generateContent options w)) = files w
  /\ clock_reads (snd (generateContent options w)) = clock_reads w.
Proof.
  rewrite generateContent_world. unfold after_fetch. cbn [sent files clock_reads].
  repeat split. rewrite length_app. cbn. lia.
Qed.

Lemma read_failure_none (w : World) (path : string) :
  read_failure w path = None
  <-> read_refused w path = None /\ is_Some (files w !! path).
Proof.
  unfold read_failure. destruct (read_refused w path) as [why|].
  - split; [discriminate | now intros [? _]].
  - destruct (files w !! path) as [bytes|].
    + split; [eauto | reflexivity].
    + split; [discriminate|]. intros [_ [x Hx]]. discriminate Hx.
Qed.

Lemma readImageAsBase64_world (filePath : string) (w : World) :
  snd (readImageAsBase64 filePath w) = w.
Proof.
  destruct (read_failure w filePath) as [e|] eqn:Hfail.
  - now rewrite (readImageAsBase64_failure _ _ _ Hfail).
  - apply read_failure_none in Hfail as [Hread [bytes Hfile]].
    now rewrite (readImageAsBase64_readable _ _ _ Hread Hfile).
Qed.

(** X2. [readImageAsBase64] only reads: the world after it is the world
    before it. It returns exactly when the path is a file that can be
    read; a path that does not exist throws the [ENOENT] error that
    names it, and a path refused to the reader, a directory or a file
    without permission, throws the error of the system. *)
Theorem readImageAsBase64_reads_only (filePath : string) (w : World) :
  snd (readImageAsBase64 filePath w) = w
  /\ (is_return (fst (readImageAsBase64 filePath w)) = true
      <-> read_refused w filePath = None /\ is_Some (files w !! filePath))
  /\ (read_refused w filePath = None ->
      files w !! filePath = None ->
      fst (readImageAsBase64 filePath w)
      = Throw (SystemError
                 ("ENOENT: no such file or directory, open '" +:+ filePath +:+ "'")))
  /\ (forall why,
        read_refused w filePath = Some why ->
        fst (readImageAsBase64 filePath w) = Throw (SystemError why)).
Proof.
  split; [apply readImageAsBase64_world|]. split; [|split].
  - rewrite <- read_failure_none.
    destruct (read_failure w filePath) as [e|] eqn:Hfail.
    + rewrite (readImageAsBase64_failure _ _ _ Hfail). cbn. split; discriminate.
    + pose proof Hfail as Hnone.
      apply read_failure_none in Hfail as [Hread [bytes Hfile]].
      rewrite (readImageAsBase64_readable _ _ _ Hread Hfile). cbn. split; reflexivity.
  - intros Hread Hfile.
    rewrite (readImageAsBase64_failure _ _ (ENOENT filePath)); [reflexivity|].
    unfold read_failure. now rewrite Hread, Hfile.
  - intros why Hread.
    rewrite (readImageAsBase64_failure _ _ (SystemError why)); [reflexivity|].
    unfold read_failure. now rewrite Hread.
Qed.

Lemma saveBase64Image_refused (d outputDir why : string) (w : World) :
  write_refused w (path_at outputDir w (clock_reads w)) = Some why ->
  saveBase64Image d outputDir w
  = (Throw (SystemError why),
     mkWorld (files w) (write_refused w) (clock w) (S (clock_reads w)) (remote w) (sent w)
             (read_refused w)).
Proof.
  intros Hw. unfold saveBase64Image, bind, Date_now, writeFileSync, path_at, filename in *.
  cbn [clock clock_reads write_refused files remote sent read_refused]. now rewrite Hw.
Qed.

(** X3. [saveBase64Image] reads the clock once and writes one file: when
    the write is allowed, the path returned is the output directory
    joined with [nano-banana-<timestamp>.png], the file there holds the
    decoded payload, whatever was there before, and every other path
    is as it was; when the write is refused, the error is thrown and the
    files are as they were. *)
Theorem saveBase64Image_writes_one_file (d outputDir : string) (w : World) :
  let path := path_join outputDir
                ("nano-banana-" +:+ pretty (clock w (clock_reads w)) +:+ ".png") in
  let w' := snd (saveBase64Image d outputDir w) in
  clock_reads w' = S (clock_reads w)
  /\ sent w' = sent w
  /\ match write_refused w path with
     | None =>
         fst (saveBase64Image d outputDir w) = Return path
         /\ files w' !! path = Some (base64_decode d)
         /\ (forall other, other <> path -> files w' !! other = files w !! other)
     | Some why =>
         fst (saveBase64Image d outputDir w) = Throw (SystemError why)
         /\ files w' = files w
     end.
Proof.
  cbn zeta. fold (filename (clock w (clock_reads w))).
  fold (path_at outputDir w (clock_reads w)).
  destruct (write_refused w (path_at outputDir w (clock_reads w))) as [why|] eqn:Hw.
  - rewrite (saveBase64Image_refused _ _ _ _ Hw). cbn. repeat split.
  - rewrite (saveBase64Image_allowed _ _ _ Hw). unfold save_one. cbn.
    split; [reflexivity|]. split; [reflexivity|]. split; [reflexivity|].
    split; [apply lookup_insert_eq|].
    intros other Hother. now apply lookup_insert_ne.
Qed.

(** X4. The file name is made of the millisecond alone: two saves into
    the same directory within one reading of the clock return the same
    path, and the file there holds the second payload only. *)
Theorem saveBase64Image_same_millisecond (d1 d2 outputDir : string) (w : World) :
  clock w (S (clock_reads w)) = clock w (clock_reads w) ->
  write_refused w (path_at outputDir w (clock_reads w)) = None ->
  exists w',
    save_twice d1 d2 outputDir w
    = (Return (path_at outputDir w (clock_reads w), path_at outputDir w (clock_reads w)), w')
    /\ files w' !! path_at outputDir w (clock_reads w) = Some (base64_decode d2).
Proof.
  intros Hclock Hw. unfold save_twice, bind.
  rewrite (saveBase64Image_allowed _ _ _ Hw).
  assert (Hsame : path_at outputDir (save_one d1 outputDir w)
                    (clock_reads (save_one d1 outputDir w))
                  = path_at outputDir w (clock_reads w)).
  { unfold path_at, save_one. cbn [clock clock_reads]. now rewrite Hclock. }
  rewrite saveBase64Image_allowed by (rewrite Hsame; exact Hw).
  rewrite Hsame. eexists. split; [reflexivity|].
  unfold save_one at 1. cbn [files]. rewrite Hsame. apply lookup_insert_eq.
Qed.

End Frames.

(** Two payloads saved while the clock stands still. *)
Lemma saveBase64Image_same_millisecond_witness :
  exists w',
    save_twice (rt := Posix.runtime) "QQ==" "Qg==" "out" stalled_world
    = (Return ("out/nano-banana-1700000000000.png", "out/nano-banana-1700000000000.png"), w')
    /\ files w' !! "out/nano-banana-1700000000000.png" = Some (Posix.decode "Qg==").
Proof.
  exact (saveBase64Image_same_millisecond (rt := Posix.runtime) "QQ==" "Qg==" "out"
           stalled_world eq_refl eq_refl).
Defined.

(** ** What extraction does to the world *)

Section ExtractionFrames.

Context {rt : NodeRuntime}.

Lemma image_payloads_cons (part : GeminiPart) (ps : list GeminiPart) :
  image_payloads (part :: ps)
  = match nonempty (payload part) with
    | Some d => d :: image_payloads ps
    | None => image_payloads ps
    end.
Proof. unfold image_payloads. cbn. now destruct (nonempty (payload part)). Qed.

Lemma if_str_nonempty {A} (s : option string) (yes : string -> A) (no : A) :
  if_str s yes no = match nonempty s with Some t => yes t | None => no end.
Proof. destruct s as [t|]; [|reflexivity]. cbn. now destruct (String.eqb t ""). Qed.

(** The loop in every outcome: nothing but files and the clock moves,
    no file disappears, and the clock is read at most once per payload. *)
Lemma extract_loop_keeps (ps : list GeminiPart) (outputDir : string) :
  forall acc recorded w,
    let w' := snd (extract_loop ps outputDir acc recorded w) in
    sent w' = sent w /\ remote w' = remote w /\ clock w' = clock w
    /\ write_refused w' = write_refused w
    /\ dom (files w) ⊆ dom (files w')
    /\ (clock_reads w <= clock_reads w' <= clock_reads w + length (image_payloads ps))%nat.
Proof.
  induction ps as [|part rest IH]; intros acc recorded w; cbn zeta.
  - cbn. repeat split; (reflexivity || lia).
  - cbn [extract_loop]. rewrite image_payloads_cons, (if_str_nonempty (payload part)).
    destruct (nonempty (payload part)) as [d|].
    + unfold bind.
      destruct (write_refused w (path_at outputDir w (clock_reads w))) as [why|] eqn:Hw.
      * rewrite (saveBase64Image_refused _ _ _ _ Hw). cbn.
        repeat split; (reflexivity || lia).
      * rewrite (saveBase64Image_allowed _ _ _ Hw).
        match goal with
        | |- context [extract_loop rest outputDir ?a ?r (save_one d outputDir w)] =>
            specialize (IH a r (save_one d outputDir w))
        end.
        cbn zeta in IH. destruct IH as (Hs & Hr & Hc & Hwr & Hdom & Hlo & Hhi).
        unfold save_one in *. cbn [sent remote clock write_refused files clock_reads] in *.
        split; [exact Hs|]. split; [exact Hr|]. split; [exact Hc|]. split; [exact Hwr|].
        split; [rewrite dom_insert_L in Hdom; set_solver | cbn [length]; lia].
    + apply IH.
Qed.

(** X5. Whether it returns or throws, [extractResult] sends nothing,
    removes no file, and reads the clock at most once for each part of
    the first candidate that carries a non-empty payload. *)
Theorem extractResult_keeps (r : GeminiResponse) (outputDir : string) (w : World) :
  let w' := snd (extractResult r outputDir w) in
  sent w' = sent w
  /\ dom (files w) ⊆ dom (files w')
  /\ (clock_reads w <= clock_reads w'
      <= clock_reads w + length (image_payloads (first_parts r)))%nat.
Proof.
  cbn zeta. destruct r as [[[|first others]|] err]; unfold first_parts; cbn [candidates].
  - destruct err as [e|];
      [rewrite (extractResult_error_only _ e) by reflexivity
      |rewrite extractResult_nothing by reflexivity]; cbn; repeat split; (reflexivity || lia).
  - rewrite extractResult_unfold.
    pose proof (extract_loop_keeps (parts (content first)) outputDir [] None w) as Hloop.
    cbn zeta in Hloop.
    destruct Hloop as (Hs & _ & _ & _ & Hdom & Hreads).
    destruct (extract_loop _ _ _ _ _) as [[[textParts path]|e] w']; cbn [snd] in *;
      split; [exact Hs | split; [exact Hdom | exact Hreads]
             | exact Hs | split; [exact Hdom | exact Hreads]].
  - destruct err as [e|];
      [rewrite (extractResult_error_only _ e) by reflexivity
      |rewrite extractResult_nothing by reflexivity]; cbn; repeat split; (reflexivity || lia).
Qed.

Lemma extract_loop_without_images (ps : list GeminiPart) (outputDir : string) :
  forall acc recorded w,
    forallb (fun p => negb (has_image p)) ps = true ->
    extract_loop ps outputDir acc recorded w
    = (Return ((acc ++ nonempty_texts ps)%list, recorded), w).
Proof.
  induction ps as [|part rest IH]; intros acc recorded w Hno.
  - cbn. now rewrite app_nil_r.
  - cbn [forallb] in Hno. apply andb_prop in Hno as [Hpart Hrest].
    rewrite (nonempty_texts_cons part rest), app_assoc.
    cbn [extract_loop]. rewrite text_step.
    rewrite (if_str_nonempty (payload part)).
    unfold has_image in Hpart. rewrite nonempty_truthy in Hpart.
    destruct (nonempty (payload part)); [discriminate|]. now apply IH.
Qed.

(** X6. A first candidate without an image part is extracted without a
    write being tried: in every world, one that refuses all writes
    included, and with or without an error descriptor beside the
    candidates, the text is returned with a null path and the world is
    as it was. *)
Theorem extractResult_without_images (first : GeminiCandidate)
    (others : list GeminiCandidate) (err : option ErrorDescriptor)
    (outputDir : string) (w : World) :
  forallb (fun p => negb (has_image p)) (parts (content first)) = true ->
  extractResult (mkResponse (Some (first :: others)) err) outputDir w
  = (Return (mkExtracted (joined (nonempty_texts (parts (content first)))) None), w).
Proof.
  intros Hno. rewrite extractResult_unfold.
  rewrite (extract_loop_without_images _ _ [] None w Hno).
  cbn [app]. now rewrite joined_length.
Qed.

Lemma saved_static (ds : list string) (outputDir : string) :
  forall w, write_refused (saved ds outputDir w) = write_refused w
            /\ sent (saved ds outputDir w) = sent w.
Proof.
  induction ds as [|d rest IH]; intros w; cbn [saved]; [split; reflexivity|].
  destruct (IH (save_one d outputDir w)) as [-> ->]. split; reflexivity.
Qed.







Lemma extract_loop_app (pre rest : list GeminiPart) (outputDir : string) :
  forall acc recorded w,
    extract_loop (pre ++ rest) outputDir acc recorded w
    = match extract_loop pre outputDir acc recorded w with
      | (Return (ts, path), w1) => extract_loop rest outputDir ts path w1
      | (Throw e, w1) => (Throw e, w1)
      end.
Proof.
  induction pre as [|part pre IH]; intros acc recorded w; [reflexivity|].
  cbn [app extract_loop]. rewrite !(if_str_nonempty (payload part)).
  destruct (nonempty (payload part)) as [d|]; [|apply IH].
  unfold bind. destruct (saveBase64Image d outputDir w) as [[p|e] w1]; [apply IH | reflexivity].
Qed.

(** X8. Nothing is rolled back: when the parts up to some point are
    extracted and the write for the next image part is refused,
    [extractResult] throws the error of that write, and the files
    written for the earlier parts stay where they are. *)
Theorem extractResult_no_rollback (pre post : list GeminiPart) (part : GeminiPart)
    (d why : string) (err : option ErrorDescriptor) (outputDir : string)
    (w w1 : World) (res : ExtractedResult) :
  extractResult (response_of pre err) outputDir w = (Return res, w1) ->
  payload part = Some d ->
  String.eqb d "" = false ->
  write_refused w (path_at outputDir w (clock_reads w1)) = Some why ->
  exists w2,
    extractResult (response_of (pre ++ part :: post) err) outputDir w
    = (Throw (SystemError why), w2)
    /\ files w2 = files w1
    /\ files w1 = files (saved (image_payloads pre) outputDir w).
Proof.
  intros Hpre Hd Hne Hrefused. unfold response_of in *.
  destruct (extractResult_returns _ _ _ _ _ _ _ Hpre) as (_ & _ & Hw1).
  cbn [parts content] in Hw1.
  rewrite extractResult_unfold in Hpre. rewrite extractResult_unfold.
  cbn [parts content] in *. rewrite extract_loop_app.
  destruct (extract_loop pre outputDir [] None w) as [[[ts path]|e] w1'] eqn:Hloop;
    [|discriminate].
  assert (w1' = w1) as -> by (destruct (0 <? length ts)%nat; congruence).
  cbn [extract_loop]. rewrite (if_str_nonempty (payload part)), Hd.
  cbn [nonempty]. rewrite Hne. unfold bind.
  assert (Hw : write_refused w1 (path_at outputDir w1 (clock_reads w1)) = Some why).
  { unfold path_at in *. rewrite Hw1 at 1 2.
    destruct (saved_static (image_payloads pre) outputDir w) as [-> _].
    destruct (saved_clock (image_payloads pre) outputDir w) as [-> _].
    exact Hrefused. }
  rewrite (saveBase64Image_refused _ _ _ _ Hw).
  eexists. split; [reflexivity|]. split; [reflexivity | now rewrite Hw1].
Qed.

End ExtractionFrames.

(** A text and an error descriptor beside it, in a world that refuses
    every write. *)
Lemma extractResult_without_images_witness :
  extractResult (rt := Posix.runtime)
    (mkResponse (Some [mkCandidate (mkContent [mkPart (Some "no image") None] "model")])
       (Some (mkErrorDescriptor "ignored" (Some 400))))
    "." read_only_world
  = (Return (mkExtracted (Some "no image") None), read_only_world).
Proof.
  exact (extractResult_without_images (rt := Posix.runtime)
           (mkCandidate (mkContent [mkPart (Some "no image") None] "model")) []
           (Some (mkErrorDescriptor "ignored" (Some 400))) "." read_only_world eq_refl).
Defined.


(** Two images on a disk that is full after the first. *)
Lemma extractResult_no_rollback_witness :
  exists w2,
    extractResult (rt := Posix.runtime) (response_of [image_A; image_B] None) "."
      filling_world
    = (Throw (SystemError "ENOSPC: no space left on device"), w2)
    /\ files w2 !! "nano-banana-1700000000000.png" = Some (Posix.decode "QQ==").
Proof.
  destruct (extractResult_no_rollback (rt := Posix.runtime) [image_A] [] image_B "Qg=="
              "ENOSPC: no space left on device" None "." filling_world
              (snd (extractResult (rt := Posix.runtime) (response_of [image_A] None) "."
                      filling_world))
              (mkExtracted None (Some "nano-banana-1700000000000.png"))
              eq_refl eq_refl eq_refl eq_refl)
    as (w2 & Hrun & Hfiles & _).
  exists w2. split; [exact Hrun|]. rewrite Hfiles. reflexivity.
Defined.

(** ** The input schemas *)

Section Schemas.

Context {rt : NodeRuntime}.

Lemma parse_field_inv {A} (args : json) (k : string) (p : parser A) (a : A) :
  parse_field args k p = Some a ->
  exists fields, args = JObj fields /\ p (lookup_field k fields) = Some a.
Proof.
  unfold parse_field, field. destruct args; try discriminate. eauto.
Qed.

Lemma z_string_inv (min : nat) (v : value) (s : string) :
  z_string min v = Some s -> v = Some (JStr s) /\ (min <= String.length s)%nat.
Proof.
  unfold z_string. destruct v as [[]|]; try discriminate.
  destruct (Nat.leb_spec min (String.length s0)); [|discriminate].
  intros [= ->]. split; [reflexivity | assumption].
Qed.

Lemma z_string_nonempty (v : value) (s : string) : z_string 1 v = Some s -> s <> "".
Proof. intros [_ Hlen]%z_string_inv ->. cbn in Hlen. lia. Qed.

Lemma enum_lookup_same (s x : string) (l : list string) :
  enum_lookup s (same l) = Some x -> x = s /\ s ∈ l.
Proof.
  induction l as [|y l IH]; [discriminate|]. cbn.
  destruct (String.eqb_spec s y) as [->|Hne].
  - intros [= ->]. split; [reflexivity | apply elem_of_cons; left; reflexivity].
  - intros Hx. destruct (IH Hx) as [-> Hin].
    split; [reflexivity | apply elem_of_cons; right; exact Hin].
Qed.

Lemma enum_lookup_member (s : string) (l : list string) :
  s ∈ l -> enum_lookup s (same l) = Some s.
Proof.
  induction l as [|y l IH]; [intros Hin; now apply elem_of_nil in Hin|]. cbn.
  destruct (String.eqb_spec s y) as [->|Hne]; [reflexivity|].
  intros Hin. apply IH. apply elem_of_cons in Hin as [Heq|Hin]; [contradiction | exact Hin].
Qed.

Lemma default_enum_inv (d : string) (l : list string) (v : value) (x : string) :
  d ∈ l -> z_default d (z_enum (same l)) v = Some x ->
  x ∈ l /\ absent_or_one_of v l.
Proof.
  intros Hd. unfold z_default, z_enum, absent_or_one_of.
  destruct v as [[]|]; try discriminate.
  - intros Hx. apply enum_lookup_same in Hx as [-> Hin]. split; [exact Hin | right; eauto].
  - intros [= <-]. split; [exact Hd | left; reflexivity].
Qed.

Lemma default_enum_complete (d : string) (l : list string) (v : value) :
  absent_or_one_of v l -> is_Some (z_default d (z_enum (same l)) v).
Proof.
  intros [->|(s & -> & Hin)]; cbn; [eauto|].
  rewrite (enum_lookup_member _ _ Hin). eauto.
Qed.

Lemma MODEL_ENUM_inv (v : value) (m : ModelChoice) :
  MODEL_ENUM v = Some m -> absent_or_one_of v MODEL_NAMES.
Proof.
  unfold MODEL_ENUM, z_default, z_enum, absent_or_one_of, MODEL_NAMES.
  destruct v as [[]|]; try discriminate; [|left; reflexivity].
  cbn. destruct (String.eqb_spec s "flash") as [->|_]; [right; eexists; split; [reflexivity|set_solver]|].
  destruct (String.eqb_spec s "pro") as [->|_]; [right; eexists; split; [reflexivity|set_solver]|].
  discriminate.
Qed.

Lemma MODEL_ENUM_complete (v : value) :
  absent_or_one_of v MODEL_NAMES -> is_Some (MODEL_ENUM v).
Proof.
  unfold MODEL_NAMES. intros [->|(s & -> & Hin)]; [cbn; eauto|].
  apply elem_of_cons in Hin as [->|Hin]; [cbn; eauto|].
  apply elem_of_cons in Hin as [->|Hin]; [cbn; eauto|].
  set_solver.
Qed.

Lemma ratio_in : "1:1" ∈ ASPECT_RATIOS.
Proof. unfold ASPECT_RATIOS. set_solver. Qed.

Lemma size_in : "1K" ∈ IMAGE_SIZES.
Proof. unfold IMAGE_SIZES. set_solver. Qed.

Lemma ASPECT_RATIO_ENUM_inv (v : value) (x : string) :
  ASPECT_RATIO_ENUM v = Some x -> x ∈ ASPECT_RATIOS /\ absent_or_one_of v ASPECT_RATIOS.
Proof. apply default_enum_inv, ratio_in. Qed.

Lemma IMAGE_SIZE_ENUM_inv (v : value) (x : string) :
  IMAGE_SIZE_ENUM v = Some x -> x ∈ IMAGE_SIZES /\ absent_or_one_of v IMAGE_SIZES.
Proof. apply (default_enum_inv "1K" IMAGE_SIZES), size_in. Qed.

Lemma optional_ratio_inv (v : value) (x : option string) :
  z_optional ASPECT_RATIO_ENUM v = Some x -> forall r, x = Some r -> r ∈ ASPECT_RATIOS.
Proof.
  unfold z_optional. destruct v as [j|]; [|intros [= <-] r; discriminate].
  destruct (ASPECT_RATIO_ENUM (Some j)) as [y|] eqn:Hy; [|discriminate].
  intros [= <-] r [= <-]. now apply ASPECT_RATIO_ENUM_inv in Hy.
Qed.

Lemma OUTPUT_DIR_inv (v : value) (x : string) :
  OUTPUT_DIR_SCHEMA v = Some x -> absent_or_string v.
Proof.
  unfold OUTPUT_DIR_SCHEMA, z_default, absent_or_string.
  destruct v as [j|]; [|left; reflexivity].
  intros [-> _]%z_string_inv. right. eauto.
Qed.

Lemma parse_items_length {A} (p : parser A) (items : list json) (l : list A) :
  parse_items p items = Some l -> length l = length items.
Proof.
  revert l. induction items as [|x items IH]; intros l; cbn; [now intros [= <-]|].
  destruct (p (Some x)); [|discriminate].
  destruct (parse_items p items) as [l'|]; [|discriminate].
  intros [= <-]. cbn. f_equal. now apply IH.
Qed.

Lemma z_array_inv {A} (item : parser A) (lo hi : nat) (v : value) (l : list A) :
  z_array item lo hi v = Some l -> (lo <= length l <= hi)%nat.
Proof.
  unfold z_array. destruct v as [[]|]; try discriminate.
  destruct (Nat.leb_spec lo (length items)), (Nat.leb_spec (length items) hi);
    try discriminate.
  intros Hl%parse_items_length. lia.
Qed.

Ltac split_schema H :=
  repeat (apply bind_Some in H; destruct H as (? & ? & H));
  injection H as <-;
  repeat match goal with
         | Hf : parse_field _ _ _ = Some _ |- _ =>
             apply parse_field_inv in Hf; destruct Hf as (? & ? & Hf)
         end.

(** X9. What a handler is run on has passed its schema: the required
    strings are not empty, an aspect ratio and an image size are members
    of their enumerations, and [compose_images] has between one and
    fourteen paths. *)
Theorem schemas_validate :
  (forall args a, generate_image_schema args = Some a ->
     g_prompt a <> "" /\ g_aspect_ratio a ∈ ASPECT_RATIOS /\ g_image_size a ∈ IMAGE_SIZES)
  /\ (forall args a, edit_image_schema args = Some a ->
        e_image_path a <> "" /\ e_instruction a <> ""
        /\ (forall r, e_aspect_ratio a = Some r -> r ∈ ASPECT_RATIOS)
        /\ e_image_size a ∈ IMAGE_SIZES)
  /\ (forall args a, compose_images_schema args = Some a ->
        (1 <= length (c_image_paths a) <= 14)%nat /\ c_instruction a <> ""
        /\ c_aspect_ratio a ∈ ASPECT_RATIOS /\ c_image_size a ∈ IMAGE_SIZES)
  /\ (forall args a, describe_image_schema args = Some a -> d_image_path a <> "").
Proof.
  split; [|split; [|split]]; intros args a Hschema.
  - unfold generate_image_schema in Hschema. split_schema Hschema.
    cbn [g_prompt g_aspect_ratio g_image_size].
    repeat match goal with
           | H : z_string 1 _ = Some _ |- _ => apply z_string_nonempty in H
           | H : ASPECT_RATIO_ENUM _ = Some _ |- _ => apply ASPECT_RATIO_ENUM_inv in H as [H _]
           | H : IMAGE_SIZE_ENUM _ = Some _ |- _ => apply IMAGE_SIZE_ENUM_inv in H as [H _]
           end.
    repeat (split; [assumption|]); assumption.
  - unfold edit_image_schema in Hschema. split_schema Hschema.
    cbn [e_image_path e_instruction e_aspect_ratio e_image_size].
    repeat match goal with
           | H : z_string 1 _ = Some _ |- _ => apply z_string_nonempty in H
           | H : z_optional ASPECT_RATIO_ENUM _ = Some _ |- _ =>
               let Hr := fresh in pose proof (optional_ratio_inv _ _ H) as Hr; clear H
           | H : IMAGE_SIZE_ENUM _ = Some _ |- _ => apply IMAGE_SIZE_ENUM_inv in H as [H _]
           end.
    repeat (split; [assumption|]); assumption.
  - unfold compose_images_schema in Hschema. split_schema Hschema.
    cbn [c_image_paths c_instruction c_aspect_ratio c_image_size].
    repeat match goal with
           | H : z_string 1 _ = Some _ |- _ => apply z_string_nonempty in H
           | H : z_array _ _ _ _ = Some _ |- _ => apply z_array_inv in H
           | H : ASPECT_RATIO_ENUM _ = Some _ |- _ => apply ASPECT_RATIO_ENUM_inv in H as [H _]
           | H : IMAGE_SIZE_ENUM _ = Some _ |- _ => apply IMAGE_SIZE_ENUM_inv in H as [H _]
           end.
    repeat (split; [assumption|]); assumption.
  - unfold describe_image_schema in Hschema. split_schema Hschema.
    cbn [d_image_path].
    repeat match goal with
           | H : z_string 1 _ = Some _ |- _ => apply z_string_nonempty in H
           end.
    repeat (split; [assumption|]); assumption.
Qed.

Lemma z_string_1_complete (s : string) : s <> "" -> z_string 1 (Some (JStr s)) = Some s.
Proof. destruct s; [contradiction | reflexivity]. Qed.

(** X10. Arguments left out take their defaults: a [generate_image] call
    that gives a non-empty prompt and no model, aspect ratio, image size
    or output directory runs with flash, 1:1, 1K and the current
    directory, whatever other keys the object has; a [describe_image]
    call that gives only the image path runs with the default prompt and
    flash. *)
Theorem schemas_default (fields : list (string * json)) (s : string) :
  s <> "" ->
  (lookup_field "prompt" fields = Some (JStr s) ->
   lookup_field "model" fields = None ->
   lookup_field "aspect_ratio" fields = None ->
   lookup_field "image_size" fields = None ->
   lookup_field "output_dir" fields = None ->
   generate_image_schema (JObj fields) = Some (mkGenerateArgs s flash "1:1" "1K" "."))
  /\ (lookup_field "image_path" fields = Some (JStr s) ->
      lookup_field "prompt" fields = None ->
      lookup_field "model" fields = None ->
      describe_image_schema (JObj fields)
      = Some (mkDescribeArgs s "Describe this image in detail." flash)).
Proof.
  intros Hs. split.
  - intros Hp Hm Hr Hz Ho.
    unfold generate_image_schema, parse_field, field. rewrite Hp, Hm, Hr, Hz, Ho.
    rewrite (z_string_1_complete _ Hs). reflexivity.
  - intros Hp Hq Hm.
    unfold describe_image_schema, parse_field, field. rewrite Hp, Hq, Hm.
    rewrite (z_string_1_complete _ Hs). reflexivity.
Qed.

(** X11. The argument objects [generate_image] accepts are exactly the
    objects with a non-empty string [prompt] in which [model],
    [aspect_ratio] and [image_size] are left out or members of their
    enumerations and [output_dir] is left out or a string; anything
    else, a non-object, an empty or missing prompt or a value outside an
    enumeration, is turned away. *)
Theorem generate_image_schema_accepts (args : json) :
  is_Some (generate_image_schema args) <-> generate_image_valid args.
Proof.
  split.
  - intros [a Hschema]. unfold generate_image_schema in Hschema.
    repeat (apply bind_Some in Hschema; destruct Hschema as (? & ? & Hschema)).
    unfold parse_field, field in *. destruct args; try discriminate.
    exists fields. split; [reflexivity|].
    repeat match goal with
           | H : z_string 1 _ = Some _ |- _ =>
               pose proof (z_string_nonempty _ _ H); apply z_string_inv in H as [H _]
           | H : MODEL_ENUM _ = Some _ |- _ => apply MODEL_ENUM_inv in H
           | H : ASPECT_RATIO_ENUM _ = Some _ |- _ => apply ASPECT_RATIO_ENUM_inv in H as [_ H]
           | H : IMAGE_SIZE_ENUM _ = Some _ |- _ => apply IMAGE_SIZE_ENUM_inv in H as [_ H]
           | H : OUTPUT_DIR_SCHEMA _ = Some _ |- _ => apply OUTPUT_DIR_inv in H
           end.
    eauto 10.
  - intros (fields & -> & (prompt & Hp & Hne) & Hm & Hr & Hz & Ho).
    unfold generate_image_schema, parse_field, field. rewrite Hp.
    rewrite (z_string_1_complete _ Hne). cbn [mbind option_bind].
    destruct (MODEL_ENUM_complete _ Hm) as [m ->]. cbn [mbind option_bind].
    destruct (default_enum_complete "1:1" _ _ Hr) as [r Hr']. unfold ASPECT_RATIO_ENUM.
    rewrite Hr'. cbn [mbind option_bind].
    destruct (default_enum_complete "1K" _ _ Hz) as [z Hz']. unfold IMAGE_SIZE_ENUM.
    change (same ["1K"; "2K"; "4K"]) with (same IMAGE_SIZES).
    rewrite Hz'. cbn [mbind option_bind].
    destruct Ho as [->|(o & ->)]; cbn; eauto.
Qed.

Lemma ratio_nonempty (r : string) : r ∈ ASPECT_RATIOS -> truthy_str (Some r) = true.
Proof.
  unfold ASPECT_RATIOS. intros Hin.
  repeat (apply elem_of_cons in Hin as [->|Hin]; [reflexivity|]).
  set_solver.
Qed.

Lemma size_nonempty (z : string) : z ∈ IMAGE_SIZES -> truthy_str (Some z) = true.
Proof.
  unfold IMAGE_SIZES. intros Hin.
  repeat (apply elem_of_cons in Hin as [->|Hin]; [reflexivity|]).
  set_solver.
Qed.

Lemma full_config_built (model : ModelChoice) (ps : list GeminiPart) (r z : string) :
  truthy_str (Some r) = true -> truthy_str (Some z) = true ->
  build_generationConfig (mkOptions model ps ["TEXT"; "IMAGE"] (Some r) (Some z))
  = full_config r z.
Proof.
  intros Hr Hz. unfold build_generationConfig, if_str.
  cbn [responseModalities aspectRatio imageSize]. rewrite Hr, Hz. reflexivity.
Qed.

(** X12. Through the schemas the empty string never reaches the request:
    every [generate_image] and [compose_images] request carries an
    [imageConfig] with both the aspect ratio and the image size, an
    [edit_image] request carries both when an aspect ratio was given
    and the image size alone when it was not, and a [describe_image]
    request asks for text only and carries no [imageConfig]. *)
Theorem tool_requests_imageConfig :
  (forall args a, generate_image_schema args = Some a ->
     build_generationConfig (generate_options a)
     = full_config (g_aspect_ratio a) (g_image_size a))
  /\ (forall args a image_parts, compose_images_schema args = Some a ->
        build_generationConfig (compose_options a image_parts)
        = full_config (c_aspect_ratio a) (c_image_size a))
  /\ (forall args a img, edit_image_schema args = Some a ->
        build_generationConfig (edit_options a img)
        = match e_aspect_ratio a with
          | Some r => full_config r (e_image_size a)
          | None => size_only_config (e_image_size a)
          end)
  /\ (forall a img,
        build_generationConfig (describe_options a img)
        = [("responseModalities", JArr [JStr "TEXT"])]).
Proof.
  split; [|split; [|split]].
  - intros args a Hschema.
    assert (Hr : g_aspect_ratio a ∈ ASPECT_RATIOS /\ g_image_size a ∈ IMAGE_SIZES).
    { unfold generate_image_schema in Hschema. split_schema Hschema. cbn.
      repeat match goal with
             | H : ASPECT_RATIO_ENUM _ = Some _ |- _ => apply ASPECT_RATIO_ENUM_inv in H as [H _]
             | H : IMAGE_SIZE_ENUM _ = Some _ |- _ => apply IMAGE_SIZE_ENUM_inv in H as [H _]
             end. repeat (split; [assumption|]); assumption. }
    destruct Hr as [Hr Hz]. apply full_config_built;
      [now apply ratio_nonempty | now apply size_nonempty].
  - intros args a image_parts Hschema.
    assert (Hr : c_aspect_ratio a ∈ ASPECT_RATIOS /\ c_image_size a ∈ IMAGE_SIZES).
    { unfold compose_images_schema in Hschema. split_schema Hschema. cbn.
      repeat match goal with
             | H : ASPECT_RATIO_ENUM _ = Some _ |- _ => apply ASPECT_RATIO_ENUM_inv in H as [H _]
             | H : IMAGE_SIZE_ENUM _ = Some _ |- _ => apply IMAGE_SIZE_ENUM_inv in H as [H _]
             end. repeat (split; [assumption|]); assumption. }
    destruct Hr as [Hr Hz]. apply full_config_built;
      [now apply ratio_nonempty | now apply size_nonempty].
  - intros args a img Hschema.
    assert (Hr : (forall r, e_aspect_ratio a = Some r -> r ∈ ASPECT_RATIOS)
                 /\ e_image_size a ∈ IMAGE_SIZES).
    { unfold edit_image_schema in Hschema. split_schema Hschema. cbn.
      repeat match goal with
             | H : z_optional ASPECT_RATIO_ENUM _ = Some _ |- _ =>
                 let Hr := fresh in pose proof (optional_ratio_inv _ _ H) as Hr; clear H
             | H : IMAGE_SIZE_ENUM _ = Some _ |- _ => apply IMAGE_SIZE_ENUM_inv in H as [H _]
             end. repeat (split; [assumption|]); assumption. }
    destruct Hr as [Hr Hz%size_nonempty]. unfold edit_options.
    destruct (e_aspect_ratio a) as [r|].
    + apply full_config_built; [apply ratio_nonempty, Hr; reflexivity | exact Hz].
    + unfold build_generationConfig, if_str, size_only_config.
      cbn [responseModalities aspectRatio imageSize]. rewrite Hz. reflexivity.
  - intros a img. reflexivity.
Qed.

End Schemas.

(** ** The handlers, stage by stage *)

Section HandlerStages.

Context {rt : NodeRuntime}.

Lemma try_catch_at_boundary (prefix : string) (body : M ToolEnvelope) (w : World) :
  try_catch body (fun error => ret (toolError (prefix +:+ error_message error))) w
  = at_boundary prefix (body w).
Proof. unfold try_catch, at_boundary, ret. now destruct (body w) as [[env|e] w']. Qed.

Lemma generate_image_run (a : GenerateArgs) (w : World) :
  generate_image a w
  = at_boundary "Failed to generate image: "
      (bind (generate_request a)
         (fun r => image_reply r (g_output_dir a) NO_IMAGE_GENERATE (generate_meta a)) w).
Proof.
  unfold generate_image. rewrite try_catch_at_boundary. now rewrite generate_image_body_split.
Qed.

Lemma edit_image_run (a : EditArgs) (w : World) :
  edit_image a w
  = at_boundary "Failed to edit image: "
      (bind (edit_request a)
         (fun r => image_reply r (e_output_dir a) NO_IMAGE_EDIT (edit_meta a)) w).
Proof.
  unfold edit_image. rewrite try_catch_at_boundary. now rewrite edit_image_body_split.
Qed.

Lemma compose_images_run (a : ComposeArgs) (w : World) :
  compose_images a w
  = at_boundary "Failed to compose images: "
      (bind (compose_request a)
         (fun r => image_reply r (c_output_dir a) NO_IMAGE_COMPOSE (compose_meta a)) w).
Proof.
  unfold compose_images. rewrite try_catch_at_boundary.
  now rewrite compose_images_body_split.
Qed.

Lemma snd_at_boundary (prefix : string) (out : Outcome ToolEnvelope * World) :
  snd (at_boundary prefix out) = snd out.
Proof. now destruct out as [[env|e] w]. Qed.

Lemma image_of_file_failure (w : World) (path : string) :
  image_of_file w path = None <-> is_Some (read_failure w path).
Proof.
  unfold image_of_file, read_failure.
  destruct (read_refused w path) as [why|]; [split; eauto|].
  destruct (files w !! path) as [bytes|]; [|split; eauto].
  split; [discriminate|]. intros [x Hx]. discriminate Hx.
Qed.

Lemma image_of_file_read (w : World) (path : string) :
  readImageAsBase64 path w
  = match image_of_file w path with
    | Some img => (Return img, w)
    | None => (Throw (default (ENOENT path) (read_failure w path)), w)
    end.
Proof.
  destruct (read_failure w path) as [e|] eqn:Hfail.
  - rewrite (readImageAsBase64_failure _ _ _ Hfail).
    now rewrite (proj2 (image_of_file_failure w path)) by eauto.
  - apply read_failure_none in Hfail as [Hread [bytes Hfile]].
    rewrite (readImageAsBase64_readable _ _ _ Hread Hfile).
    unfold image_of_file. now rewrite Hread, Hfile.
Qed.

Lemma read_parts_all (paths : list string) (w : World) (imgs : list ImageData) :
  mapM (image_of_file w) paths = Some imgs ->
  read_parts paths w = (Return (map image_part imgs), w).
Proof.
  revert imgs. induction paths as [|path rest IH]; intros imgs Hall.
  - cbn in Hall. injection Hall as <-. reflexivity.
  - cbn in Hall. destruct (image_of_file w path) as [img|] eqn:Himg; [|discriminate].
    destruct (mapM (image_of_file w) rest) as [more|]; [|discriminate].
    cbn in Hall. injection Hall as <-.
    cbn [read_parts]. unfold bind. rewrite image_of_file_read, Himg.
    rewrite (IH more eq_refl). reflexivity.
Qed.

Lemma read_parts_first_failure (pre post : list string) (failing : string) (w : World)
    (e : JsError) :
  Forall (fun path => read_failure w path = None) pre ->
  read_failure w failing = Some e ->
  read_parts (pre ++ failing :: post) w = (Throw e, w).
Proof.
  intros Hpre Hfail. induction Hpre as [|path pre Hpath _ IH].
  - cbn [app read_parts]. unfold bind.
    now rewrite (readImageAsBase64_failure _ _ _ Hfail).
  - cbn [app read_parts]. unfold bind.
    apply read_failure_none in Hpath as [Hread [bytes Hfile]].
    rewrite (readImageAsBase64_readable _ _ _ Hread Hfile). now rewrite IH.
Qed.

Lemma read_parts_world (paths : list string) (w : World) : snd (read_parts paths w) = w.
Proof.
  induction paths as [|path rest IH]; [reflexivity|].
  cbn [read_parts]. unfold bind. rewrite image_of_file_read.
  destruct (image_of_file w path); [|reflexivity].
  destruct (read_parts rest w) as [[more|e] w'] eqn:Hrest; cbn in IH |- *; now subst.
Qed.

Lemma extractResult_sent (r : GeminiResponse) (outputDir : string) (w : World) :
  sent (snd (extractResult r outputDir w)) = sent w.
Proof.
  destruct r as [[[|first others]|] err].
  - destruct err as [e|];
      [rewrite (extractResult_error_only _ e) by reflexivity
      |rewrite extractResult_nothing by reflexivity]; reflexivity.
  - rewrite extractResult_unfold.
    pose proof (extract_loop_keeps (parts (content first)) outputDir [] None w) as Hloop.
    cbn zeta in Hloop. destruct Hloop as (Hs & _).
    now destruct (extract_loop _ _ _ _ _) as [[[textParts path]|e] w'].
  - destruct err as [e|];
      [rewrite (extractResult_error_only _ e) by reflexivity
      |rewrite extractResult_nothing by reflexivity]; reflexivity.
Qed.

Lemma first_image_data_world (r : GeminiResponse) (w : World) :
  snd (first_image_data r w) = w.
Proof.
  unfold first_image_data. destruct (candidates r) as [[|first others]|]; try reflexivity.
  destruct (List.find _ _) as [p|]; [|reflexivity].
  now destruct (inlineData p).
Qed.

Lemma image_reply_sent (r : GeminiResponse) (outputDir no_image : string)
    (meta : ExtractedResult -> list (string * json)) (w : World) :
  sent (snd (image_reply r outputDir no_image meta w)) = sent w.
Proof.
  unfold image_reply, bind.
  pose proof (extractResult_sent r outputDir w) as Hsent.
  destruct (extractResult r outputDir w) as [[res|e] w1]; cbn [snd] in *; [|exact Hsent].
  destruct (negb (truthy_str (imagePath res))); [exact Hsent|].
  pose proof (first_image_data_world r w1) as Hw.
  destruct (first_image_data r w1) as [[image|e] w2]; cbn [snd] in *; now subst.
Qed.

(** X13. [compose_images] reads its source images in the order given
    and sends them in that order, the instruction last: when all of them
    exist, the one request of the call is the one built from an inline
    part per path followed by the text part, each inline part holding
    the base64 of its file and the MIME type of its extension. *)
Theorem compose_images_parts_in_order (a : ComposeArgs) (w : World)
    (imgs : list ImageData) :
  mapM (image_of_file w) (c_image_paths a) = Some imgs ->
  sent (snd (compose_images a w))
  = (sent w ++ [build_request (compose_options a (map image_part imgs))])%list
  /\ opt_parts (compose_options a (map image_part imgs))
     = (map image_part imgs ++ [mkPart (Some (c_instruction a)) None])%list
  /\ length imgs = length (c_image_paths a).
Proof.
  intros Hall. split; [|split; [reflexivity|]].
  - rewrite compose_images_run, snd_at_boundary. unfold compose_request, bind.
    rewrite (read_parts_all _ _ _ Hall).
    pose proof (generateContent_world (compose_options a (map image_part imgs)) w) as Hw.
    destruct (generateContent _ w) as [[r|e] w1]; cbn [snd] in *; subst w1;
      [rewrite image_reply_sent|]; reflexivity.
  - symmetry. now apply (length_mapM (image_of_file w)).
Qed.

(** X14. A source image that cannot be read ends the call before the
    endpoint is reached: [edit_image] and [describe_image] for their one
    path, [compose_images] for the first path of its list whose read
    fails, hand back the error of the read behind their prefix and
    leave the world, the log of requests included, as it was. The error
    is [ENOENT] for a path that does not exist and the error of the
    system for a path refused to the reader. *)
Theorem unreadable_image_sends_nothing (w : World) :
  (forall a e, read_failure w (e_image_path a) = Some e ->
     edit_image a w
     = (Return (toolError ("Failed to edit image: " +:+ error_message e)), w))
  /\ (forall a e, read_failure w (d_image_path a) = Some e ->
        describe_image a w
        = (Return (toolError ("Failed to describe image: " +:+ error_message e)), w))
  /\ (forall a pre failing post e,
        c_image_paths a = (pre ++ failing :: post)%list ->
        Forall (fun path => read_failure w path = None) pre ->
        read_failure w failing = Some e ->
        compose_images a w
        = (Return (toolError ("Failed to compose images: " +:+ error_message e)), w))
  /\ (forall path,
        read_refused w path = None -> files w !! path = None ->
        read_failure w path
        = Some (SystemError
                  ("ENOENT: no such file or directory, open '" +:+ path +:+ "'")))
  /\ (forall path why,
        read_refused w path = Some why -> read_failure w path = Some (SystemError why)).
Proof.
  split; [|split; [|split; [|split]]].
  - intros a e Hfail. rewrite edit_image_run. unfold edit_request, bind.
    now rewrite (readImageAsBase64_failure _ _ _ Hfail).
  - intros a e Hfail. unfold describe_image. rewrite try_catch_at_boundary.
    unfold describe_image_body, bind.
    now rewrite (readImageAsBase64_failure _ _ _ Hfail).
  - intros a pre failing post e Hpaths Hpre Hfail.
    rewrite compose_images_run. unfold compose_request, bind.
    rewrite Hpaths, (read_parts_first_failure _ _ _ _ _ Hpre Hfail). reflexivity.
  - intros path Hread Hfile. unfold read_failure. now rewrite Hread, Hfile.
  - intros path why Hread. unfold read_failure. now rewrite Hread.
Qed.

Lemma describe_image_world (a : DescribeArgs) (w : World) :
  snd (describe_image a w) = w
  \/ exists img, snd (describe_image a w) = after_fetch w (build_request (describe_options a img)).
Proof.
  unfold describe_image. rewrite try_catch_at_boundary, snd_at_boundary.
  unfold describe_image_body, bind. rewrite image_of_file_read.
  destruct (image_of_file w (d_image_path a)) as [img|]; [|left; reflexivity].
  right. exists img. fold (image_part img). fold (describe_options a img).
  pose proof (generateContent_world (describe_options a img) w) as Hw.
  destruct (generateContent _ w) as [[r|e] w1]; cbn [snd] in *; subst w1; [|reflexivity].
  now destruct (candidates r) as [[|first others]|].
Qed.

(** X15. [describe_image], the one tool declared read-only, is
    read-only: in every outcome the files and the clock are as they
    were, and at most one request has been sent. *)
Theorem describe_image_read_only (a : DescribeArgs) (w : World) :
  readOnlyHint describe_image_annotations = true
  /\ files (snd (describe_image a w)) = files w
  /\ clock_reads (snd (describe_image a w)) = clock_reads w
  /\ (length (sent (snd (describe_image a w))) <= S (length (sent w)))%nat.
Proof.
  split; [reflexivity|].
  destruct (describe_image_world a w) as [->|(img & ->)].
  - repeat split. lia.
  - unfold after_fetch. cbn [files clock_reads sent]. repeat split.
    rewrite length_app. cbn. lia.
Qed.

(** X16. [describe_image] does not look at the error descriptor: a
    response without candidates is answered with the fixed message that
    no description was generated, whether or not it carries an error, and
    nothing but the request is left behind. *)
Theorem describe_image_no_candidates (a : DescribeArgs) (w w1 : World) (img : ImageData)
    (r : GeminiResponse) :
  readImageAsBase64 (d_image_path a) w = (Return img, w) ->
  generateContent (describe_options a img) w = (Return r, w1) ->
  no_candidates r = true ->
  describe_image a w = (Return (toolError NO_DESCRIPTION), w1)
  /\ w1 = after_fetch w (build_request (describe_options a img)).
Proof.
  intros Hread Hcall Hnone. split.
  - unfold describe_image. rewrite try_catch_at_boundary.
    unfold describe_image_body, bind. rewrite Hread.
    fold (image_part img). fold (describe_options a img). rewrite Hcall.
    unfold no_candidates in Hnone.
    destruct (candidates r) as [[|first others]|]; try discriminate; reflexivity.
  - pose proof (generateContent_world (describe_options a img) w) as Hw.
    now rewrite Hcall in Hw.
Qed.

Lemma image_reply_error_descriptor (r : GeminiResponse) (e : ErrorDescriptor)
    (outputDir no_image : string) (meta : ExtractedResult -> list (string * json))
    (w : World) :
  no_candidates r = true -> error r = Some e ->
  image_reply r outputDir no_image meta w
  = (Throw (GeminiApiError (status_thrown e) (err_message e)), w).
Proof.
  intros Hnone Herr. unfold image_reply, bind.
  now rewrite (extractResult_error_only _ e) by assumption.
Qed.

Lemma image_reply_no_image (r : GeminiResponse) (outputDir no_image : string)
    (meta : ExtractedResult -> list (string * json)) (w : World) :
  no_image_part r = true ->
  (no_candidates r = true -> error r = None) ->
  image_reply r outputDir no_image meta w = (Return (toolError no_image), w).
Proof.
  intros Hno Herr. unfold image_reply, bind.
  destruct r as [[[|first others]|] err]; cbn in Hno, Herr.
  - rewrite extractResult_nothing by (try reflexivity; now apply Herr). reflexivity.
  - rewrite extractResult_unfold, (extract_loop_without_images _ _ [] None w Hno).
    reflexivity.
  - rewrite extractResult_nothing by (try reflexivity; now apply Herr). reflexivity.
Qed.

(** X17. The three image handlers report an error descriptor that comes
    without candidates by its message, behind their prefix, and write
    nothing. *)
Theorem image_handlers_error_descriptor (r : GeminiResponse) (e : ErrorDescriptor) :
  no_candidates r = true -> error r = Some e ->
  (forall a w w1, generate_request a w = (Return r, w1) ->
     generate_image a w
     = (Return (toolError ("Failed to generate image: " +:+ err_message e)), w1))
  /\ (forall a w w1, edit_request a w = (Return r, w1) ->
        edit_image a w
        = (Return (toolError ("Failed to edit image: " +:+ err_message e)), w1))
  /\ (forall a w w1, compose_request a w = (Return r, w1) ->
        compose_images a w
        = (Return (toolError ("Failed to compose images: " +:+ err_message e)), w1)).
Proof.
  intros Hnone Herr. split; [|split]; intros a w w1 Hrequest.
  - rewrite generate_image_run. unfold bind. rewrite Hrequest.
    now rewrite (image_reply_error_descriptor _ e) by assumption.
  - rewrite edit_image_run. unfold bind. rewrite Hrequest.
    now rewrite (image_reply_error_descriptor _ e) by assumption.
  - rewrite compose_images_run. unfold bind. rewrite Hrequest.
    now rewrite (image_reply_error_descriptor _ e) by assumption.
Qed.

(** X18. [edit_image] and [compose_images] answer a response that has no
    image part, and no error descriptor in place of candidates, with
    their own message that no image was generated; no file has been
    written and nothing but the request is left behind. *)
Theorem edit_compose_no_image (r : GeminiResponse) :
  no_image_part r = true ->
  (no_candidates r = true -> error r = None) ->
  (forall a w w1, edit_request a w = (Return r, w1) ->
     edit_image a w = (Return (toolError NO_IMAGE_EDIT), w1))
  /\ (forall a w w1, compose_request a w = (Return r, w1) ->
        compose_images a w = (Return (toolError NO_IMAGE_COMPOSE), w1))
  /\ str_includes "No image was generated" NO_IMAGE_EDIT = true
  /\ str_includes "No image was generated" NO_IMAGE_COMPOSE = true.
Proof.
  intros Hno Herr. split; [|split; [|split; vm_compute; reflexivity]];
    intros a w w1 Hrequest.
  - rewrite edit_image_run. unfold bind. rewrite Hrequest.
    now rewrite image_reply_no_image by assumption.
  - rewrite compose_images_run. unfold bind. rewrite Hrequest.
    now rewrite image_reply_no_image by assumption.
Qed.

(** C7, as amended. A [generate_image] call with a non-empty prompt
    whose endpoint response has no inline-image part ends in an error
    envelope with a single text item. When the response has no
    candidates and carries an error descriptor, extraction throws and
    the text is the prefix of the handler followed by the descriptor's
    message. In every other case extraction yields a null [imagePath]
    and the text is the message that contains the phrase. Nothing is
    written either way. *)
Theorem generate_image_no_image (a : GenerateArgs) (w w1 : World) (r : GeminiResponse) :
  (1 <=? String.length (g_prompt a))%nat = true ->
  generateContent (generate_options a) w = (Return r, w1) ->
  no_image_part r = true ->
  (forall e,
     no_candidates r = true -> error r = Some e ->
     extractResult r (g_output_dir a) w1
     = (Throw (GeminiApiError (status_thrown e) (err_message e)), w1)
     /\ exists env,
         generate_image a w = (Return env, w1)
         /\ isError env = true
         /\ env_content env = [TextItem ("Failed to generate image: " +:+ err_message e)])
  /\ ((no_candidates r = true -> error r = None) ->
      exists res env,
        extractResult r (g_output_dir a) w1 = (Return res, w1)
        /\ imagePath res = None
        /\ generate_image a w = (Return env, w1)
        /\ isError env = true
        /\ env_content env = [TextItem NO_IMAGE_GENERATE]
        /\ str_includes "No image was generated." NO_IMAGE_GENERATE = true).
Proof.
  intros _ Hcall Hno. split.
  - intros e Hnone Herr. split; [now apply extractResult_error_only|].
    exists (toolError ("Failed to generate image: " +:+ err_message e)).
    split; [|split; reflexivity].
    rewrite generate_image_run. unfold bind, generate_request. rewrite Hcall.
    now rewrite (image_reply_error_descriptor _ e) by assumption.
  - intros Herr.
    assert (Hextract : exists res, extractResult r (g_output_dir a) w1 = (Return res, w1)
                                   /\ imagePath res = None).
    { destruct r as [[[|first others]|] err]; cbn in Hno, Herr.
      - rewrite extractResult_nothing by (try reflexivity; now apply Herr). eauto.
      - rewrite extractResult_unfold,
          (extract_loop_without_images _ _ [] None w1 Hno). eauto.
      - rewrite extractResult_nothing by (try reflexivity; now apply Herr). eauto. }
    destruct Hextract as (res & Hextract & Hpath).
    exists res, (toolError NO_IMAGE_GENERATE).
    split; [exact Hextract|]. split; [exact Hpath|].
    split; [|split; [reflexivity|split; [reflexivity | vm_compute; reflexivity]]].
    rewrite generate_image_run. unfold bind, generate_request. rewrite Hcall.
    now rewrite image_reply_no_image by assumption.
Qed.

End HandlerStages.

(** The endpoint answers a prompt with a text only. *)
Lemma generate_image_no_image_witness :
  exists env,
    generate_image (rt := Posix.runtime) cat_call (world_replying (ok_reply refusal))
    = (Return env,
       snd (generateContent (rt := Posix.runtime) (generate_options cat_call)
              (world_replying (ok_reply refusal))))
    /\ isError env = true
    /\ env_content env = [TextItem NO_IMAGE_GENERATE].
Proof.
  destruct (proj2 (generate_image_no_image (rt := Posix.runtime) cat_call
                     (world_replying (ok_reply refusal))
                     (snd (generateContent (rt := Posix.runtime) (generate_options cat_call)
                             (world_replying (ok_reply refusal))))
                     refusal eq_refl eq_refl eq_refl)
              (fun absurd => match Bool.diff_false_true absurd with end))
    as (res & env & _ & _ & Hrun & Herror & Hcontent & _).
  exists env. split; [exact Hrun|]. split; [exact Herror | exact Hcontent].
Defined.

(** A response without an inline-image part that is not answered with
    the phrase: an error descriptor in place of the candidates. *)
Lemma generate_image_descriptor_alone :
  let out := generate_image (rt := Posix.runtime) cat_call
               (world_replying (ok_reply blocked)) in
  no_image_part blocked = true
  /\ fst out = Return (toolError "Failed to generate image: blocked")
  /\ env_content (toolError "Failed to generate image: blocked")
     = [TextItem "Failed to generate image: blocked"]
  /\ str_includes "No image was generated." "Failed to generate image: blocked" = false
  /\ files (snd out) = ∅.
Proof.
  cbn zeta. split; [reflexivity|]. split; [vm_compute; reflexivity|].
  split; [reflexivity|]. split; vm_compute; reflexivity.
Qed.

(** ** The handlers and the endpoint *)

Section HandlersAndEndpoint.

Context {rt : NodeRuntime}.

Lemma generateContent_http_error (options : GenerateOptions) (w : World)
    (response : HttpResponse) :
  remote w (build_request options) = FetchResolved response ->
  resp_ok response = false ->
  resp_error_body response <> Some JNull ->
  generateContent options w
  = (Throw (failure_for response), after_fetch w (build_request options)).
Proof.
  intros Hremote Hok Hbody.
  pose proof (generateContent_non2xx options w response Hremote Hok Hbody) as Hfst.
  pose proof (generateContent_world options w) as Hsnd.
  destruct (generateContent options w) as [out w1]. cbn [fst snd] in *. now subst.
Qed.

(** X19. A non-2xx answer of the endpoint whose body is not [null]
    comes back from each of the four handlers as its prefix followed by
    the message of the error the endpoint call ends in, and the request
    is the only trace the call leaves. That message is the fixed
    rate-limit message for status 429, whatever the body says; for any
    other status it is the API error text with the status and the
    message chosen from the body, or, when that message is an object or
    array that does not convert to a string, the message of the
    conversion's [TypeError]. *)
Theorem handlers_http_error (w : World) (response : HttpResponse) :
  answers_with w response ->
  resp_ok response = false ->
  resp_error_body response <> Some JNull ->
  (forall a,
     generate_image a w
     = (Return (toolError ("Failed to generate image: "
                           +:+ error_message (failure_for response))),
        after_fetch w (build_request (generate_options a))))
  /\ (forall a img, image_of_file w (e_image_path a) = Some img ->
        edit_image a w
        = (Return (toolError ("Failed to edit image: "
                              +:+ error_message (failure_for response))),
           after_fetch w (build_request (edit_options a img))))
  /\ (forall a imgs, mapM (image_of_file w) (c_image_paths a) = Some imgs ->
        compose_images a w
        = (Return (toolError ("Failed to compose images: "
                              +:+ error_message (failure_for response))),
           after_fetch w (build_request (compose_options a (map image_part imgs)))))
  /\ (forall a img, image_of_file w (d_image_path a) = Some img ->
        describe_image a w
        = (Return (toolError ("Failed to describe image: "
                              +:+ error_message (failure_for response))),
           after_fetch w (build_request (describe_options a img))))
  /\ (resp_status response = 429 ->
      error_message (failure_for response) = RATE_LIMIT_MESSAGE)
  /\ (resp_status response <> 429 ->
      forall text, message_text response = Some text ->
      error_message (failure_for response)
      = "Gemini API error (" +:+ pretty (resp_status response) +:+ "): " +:+ text)
  /\ (resp_status response <> 429 ->
      message_text response = None ->
      error_message (failure_for response) = "Cannot convert object to primitive value").
Proof.
  intros Hremote Hok Hbody. repeat split.
  - intros a. rewrite generate_image_run. unfold generate_request, bind.
    now rewrite (generateContent_http_error _ _ response (Hremote _) Hok Hbody).
  - intros a img Himg. rewrite edit_image_run. unfold edit_request, bind.
    rewrite image_of_file_read, Himg.
    now rewrite (generateContent_http_error _ _ response (Hremote _) Hok Hbody).
  - intros a imgs Hall. rewrite compose_images_run. unfold compose_request, bind.
    rewrite (read_parts_all _ _ _ Hall).
    now rewrite (generateContent_http_error _ _ response (Hremote _) Hok Hbody).
  - intros a img Himg. unfold describe_image. rewrite try_catch_at_boundary.
    unfold describe_image_body, bind. rewrite image_of_file_read, Himg.
    fold (image_part img). fold (describe_options a img).
    now rewrite (generateContent_http_error _ _ response (Hremote _) Hok Hbody).
  - intros H429. unfold failure_for. now rewrite H429.
  - intros Hs text Htext. unfold failure_for.
    destruct (Z.eqb_spec (resp_status response) 429); [contradiction|].
    now rewrite Htext.
  - intros Hs Htext. unfold failure_for.
    destruct (Z.eqb_spec (resp_status response) 429); [contradiction|].
    now rewrite Htext.
Qed.

Lemma request_stage_sent (request : M GeminiResponse) (w : World) (reqs : list HttpRequest)
    (outputDir no_image prefix : string) (meta : ExtractedResult -> list (string * json)) :
  sent (snd (request w)) = (sent w ++ reqs)%list ->
  sent (snd (at_boundary prefix
               (bind request (fun r => image_reply r outputDir no_image meta) w)))
  = (sent w ++ reqs)%list.
Proof.
  intros Hsent. rewrite snd_at_boundary. unfold bind.
  destruct (request w) as [[r|e] w1]; cbn [snd] in *; [|exact Hsent].
  now rewrite image_reply_sent.
Qed.

Lemma mapM_image_of_file_None (w : World) (paths : list string) :
  mapM (image_of_file w) paths = None
  <-> exists path, path ∈ paths /\ is_Some (read_failure w path).
Proof.
  induction paths as [|p rest IH].
  - split; [discriminate|]. intros (path & Hin & _). now apply elem_of_nil in Hin.
  - cbn [mapM]. destruct (image_of_file w p) as [img|] eqn:Himg; cbn.
    + destruct (mapM (image_of_file w) rest) as [imgs|]; cbn.
      * split; [discriminate|]. intros (path & Hin & Hfile).
        apply elem_of_cons in Hin as [->|Hin].
        -- apply image_of_file_failure in Hfile. congruence.
        -- destruct IH as [_ IH]. assert (Some imgs = None) by (apply IH; eauto).
           discriminate.
      * split; [|reflexivity]. intros _.
        destruct IH as [IH _]. destruct (IH eq_refl) as (path & Hin & Hfile).
        exists path. split; [apply elem_of_cons; now right | exact Hfile].
    + split; [|reflexivity]. intros _. exists p.
      split; [apply elem_of_cons; now left | now apply image_of_file_failure].
Qed.

Lemma read_parts_some_missing (paths : list string) (w : World) :
  mapM (image_of_file w) paths = None ->
  exists e, read_parts paths w = (Throw e, w).
Proof.
  induction paths as [|p rest IH]; [discriminate|].
  cbn [mapM read_parts]. unfold bind. rewrite image_of_file_read.
  destruct (image_of_file w p) as [img|]; cbn; [|eauto].
  destruct (mapM (image_of_file w) rest) as [imgs|]; cbn; [discriminate|].
  intros _. destruct (IH eq_refl) as (e & ->). eauto.
Qed.

Lemma describe_image_snd (a : DescribeArgs) (w : World) :
  snd (describe_image a w)
  = match image_of_file w (d_image_path a) with
    | Some img => after_fetch w (build_request (describe_options a img))
    | None => w
    end.
Proof.
  unfold describe_image. rewrite try_catch_at_boundary, snd_at_boundary.
  unfold describe_image_body, bind. rewrite image_of_file_read.
  destruct (image_of_file w (d_image_path a)) as [img|]; [|reflexivity].
  fold (image_part img). fold (describe_options a img).
  pose proof (generateContent_world (describe_options a img) w) as Hw.
  destruct (generateContent _ w) as [[r|e] w1]; cbn [snd] in *; subst w1; [|reflexivity].
  now destruct (candidates r) as [[|first others]|].
Qed.

(** X20. No handler tries again: in every outcome, success or failure,
    [generate_image] has sent exactly one request, and [edit_image],
    [compose_images] and [describe_image] have sent one or, exactly when
    the read of a source image fails, none. *)
Theorem handlers_never_retry (w : World) :
  (forall a, sent (snd (generate_image a w))
             = (sent w ++ [build_request (generate_options a)])%list)
  /\ (forall a, exists reqs,
        sent (snd (edit_image a w)) = (sent w ++ reqs)%list
        /\ (length reqs <= 1)%nat
        /\ (length reqs = 0%nat <-> is_Some (read_failure w (e_image_path a))))
  /\ (forall a, exists reqs,
        sent (snd (compose_images a w)) = (sent w ++ reqs)%list
        /\ (length reqs <= 1)%nat
        /\ (length reqs = 0%nat
            <-> exists path, path ∈ c_image_paths a /\ is_Some (read_failure w path)))
  /\ (forall a, exists reqs,
        sent (snd (describe_image a w)) = (sent w ++ reqs)%list
        /\ (length reqs <= 1)%nat
        /\ (length reqs = 0%nat <-> is_Some (read_failure w (d_image_path a)))).
Proof.
  split; [|split; [|split]]; intros a.
  - rewrite generate_image_run. apply request_stage_sent.
    unfold generate_request. now rewrite generateContent_world.
  - rewrite edit_image_run. unfold edit_request.
    destruct (image_of_file w (e_image_path a)) as [img|] eqn:Himg.
    + eexists [_]. split; [|split; [cbn; lia | split; [discriminate|]]].
      * apply request_stage_sent. unfold bind. rewrite image_of_file_read, Himg.
        now rewrite generateContent_world.
      * intros Hfail. apply image_of_file_failure in Hfail. congruence.
    + exists []. split; [|split; [cbn; lia | split; [|reflexivity]]].
      * apply request_stage_sent. unfold bind. rewrite image_of_file_read, Himg.
        cbn. now rewrite app_nil_r.
      * intros _. now apply image_of_file_failure.
  - rewrite compose_images_run. unfold compose_request.
    destruct (mapM (image_of_file w) (c_image_paths a)) as [imgs|] eqn:Hall.
    + eexists [_]. split; [|split; [cbn; lia | split; [discriminate|]]].
      * apply request_stage_sent. unfold bind. rewrite (read_parts_all _ _ _ Hall).
        now rewrite generateContent_world.
      * intros Hmissing. apply mapM_image_of_file_None in Hmissing. congruence.
    + exists []. split; [|split; [cbn; lia | split; [|reflexivity]]].
      * apply request_stage_sent. unfold bind.
        destruct (read_parts_some_missing _ _ Hall) as (e & ->).
        cbn. now rewrite app_nil_r.
      * intros _. now apply mapM_image_of_file_None.
  - rewrite describe_image_snd.
    destruct (image_of_file w (d_image_path a)) as [img|] eqn:Himg.
    + eexists [_]. split; [reflexivity|]. split; [cbn; lia|]. split; [discriminate|].
      intros Hfail. apply image_of_file_failure in Hfail. congruence.
    + exists []. split; [now rewrite app_nil_r|]. split; [cbn; lia|].
      split; [|reflexivity]. intros _. now apply image_of_file_failure.
Qed.



Lemma relabel_part_payload (f : string -> string) (p : GeminiPart) :
  payload (relabel_part f p) = payload p /\ text (relabel_part f p) = text p.
Proof. unfold payload, relabel_part. cbn. now destruct (inlineData p). Qed.

Lemma extract_loop_relabel (f : string -> string) (ps : list GeminiPart)
    (outputDir : string) :
  forall acc recorded w,
    extract_loop (map (relabel_part f) ps) outputDir acc recorded w
    = extract_loop ps outputDir acc recorded w.
Proof.
  induction ps as [|p rest IH]; intros acc recorded w; [reflexivity|].
  cbn [map extract_loop].
  destruct (relabel_part_payload f p) as [-> ->].
  rewrite !(if_str_nonempty (payload p)).
  destruct (nonempty (payload p)) as [d|]; [|apply IH].
  unfold bind. destruct (saveBase64Image d outputDir w) as [[path|e] w1]; [|reflexivity].
  apply IH.
Qed.

Lemma find_relabel (f : string -> string) (ps : list GeminiPart) :
  List.find has_image (map (relabel_part f) ps)
  = match List.find has_image ps with
    | Some p => Some (relabel_part f p)
    | None => None
    end.
Proof.
  induction ps as [|p rest IH]; [reflexivity|].
  cbn [map List.find]. unfold has_image at 1 3.
  destruct (relabel_part_payload f p) as [-> _].
  now destruct (truthy_str (payload p)).
Qed.

(** X22. The MIME type an inline image of the response declares is not
    looked at: with every declared type rewritten, [extractResult] has
    the same outcome and writes the same files under the same [.png]
    names, the handlers pick the same payload, and the image item of the
    envelope is labelled [image/png] whatever was declared. *)
Theorem response_mime_type_ignored (f : string -> string) (r : GeminiResponse) :
  (forall outputDir w, extractResult (relabel f r) outputDir w = extractResult r outputDir w)
  /\ (forall w, first_image_data (relabel f r) w = first_image_data r w)
  /\ (forall outputDir no_image meta w,
        image_reply (relabel f r) outputDir no_image meta w
        = image_reply r outputDir no_image meta w)
  /\ (forall meta d, env_content (toolResultWithImage meta d)
                     = [ImageItem d "image/png"; TextItem (Stringify.stringify meta)]).
Proof.
  assert (Hextract : forall outputDir w,
             extractResult (relabel f r) outputDir w = extractResult r outputDir w).
  { intros outputDir w. destruct r as [[[|first others]|] err]; try reflexivity.
    unfold relabel. cbn [candidates error map].
    rewrite !extractResult_unfold. unfold relabel_candidate. cbn [content parts].
    now rewrite extract_loop_relabel. }
  assert (Hfirst : forall w, first_image_data (relabel f r) w = first_image_data r w).
  { intros w. destruct r as [[[|first others]|] err]; try reflexivity.
    unfold first_image_data, relabel, relabel_candidate.
    cbn [candidates map content parts]. rewrite find_relabel.
    destruct (List.find has_image (parts (content first))) as [p|]; [|reflexivity].
    unfold relabel_part. cbn [inlineData]. now destruct (inlineData p). }
  split; [exact Hextract|]. split; [exact Hfirst|]. split; [|reflexivity].
  intros outputDir no_image meta w. unfold image_reply, bind. rewrite Hextract.
  destruct (extractResult r outputDir w) as [[res|e] w1]; [|reflexivity].
  destruct (negb (truthy_str (imagePath res))); [reflexivity|]. now rewrite Hfirst.
Qed.

End HandlersAndEndpoint.

(** ** Start-up *)

(** X23. [getRequiredEnv] hands back the value of a variable exactly
    when the variable is set to a non-empty string; a variable that is
    not set and one that is set to the empty string both end the process
    with status 1 and the message that names the variable. *)
Theorem getRequiredEnv_nonempty (env : gmap string string) (name : string) :
  (forall v, getRequiredEnv env name = Loaded v <-> env !! name = Some v /\ v <> "")
  /\ (getRequiredEnv env name = Exited 1 (missing_variable name)
      <-> env !! name = None \/ env !! name = Some "")
  /\ (forall v, v <> "" -> load_API_KEY (<["GEMINI_API_KEY" := v]> env) = Loaded v)
  /\ load_API_KEY (delete "GEMINI_API_KEY" env)
     = Exited 1 (missing_variable "GEMINI_API_KEY").
Proof.
  assert (Hcases : forall value : string,
             truthy_str (Some value) = negb (String.eqb value "")) by reflexivity.
  unfold load_API_KEY, getRequiredEnv, if_str. split; [|split; [|split]].
  - intros v. destruct (env !! name) as [value|].
    + rewrite Hcases. destruct (String.eqb_spec value "") as [->|Hne]; cbn [negb].
      * split; [discriminate|]. intros [[= <-] Hv]. now contradiction Hv.
      * split; [intros [= <-]; now split|]. now intros [[= <-] _].
    + split; [discriminate|]. now intros [? _].
  - destruct (env !! name) as [value|].
    + rewrite Hcases. destruct (String.eqb_spec value "") as [->|Hne]; cbn [negb].
      * split; [now right | reflexivity].
      * split; [discriminate|]. intros [?|[= ->]]; [discriminate | now contradiction Hne].
    + split; [now left | reflexivity].
  - intros v Hne. rewrite lookup_insert_eq, Hcases.
    destruct (String.eqb_spec v ""); [contradiction | reflexivity].
  - now rewrite lookup_delete_eq.
Qed.

(** ** The outcomes of the endpoint call *)

Section Outcomes.

Context {rt : NodeRuntime}.

(** X24. What [generateContent] does with each answer: a request that
    fails on the network throws the error of [fetch]; a status from 200
    to 299 hands back the parsed body as it is, an error descriptor in
    it included, or throws the parse error; any other status, with a
    body that is not [null], throws an API error whose status is the
    HTTP status, unless the status is not 429 and the message chosen
    from the body does not convert to a string: then the [TypeError] of
    the conversion is thrown instead. *)
Theorem generateContent_outcomes (options : GenerateOptions) (w : World) :
  (forall why,
     remote w (build_request options) = FetchRejected why ->
     fst (generateContent options w) = Throw (TypeError why))
  /\ (forall response,
        remote w (build_request options) = FetchResolved response ->
        (200 <= resp_status response <= 299)%Z ->
        fst (generateContent options w)
        = match resp_payload response with
          | Parsed r => Return r
          | Malformed why => Throw (SyntaxError why)
          end)
  /\ (forall response,
        remote w (build_request options) = FetchResolved response ->
        ~ (200 <= resp_status response <= 299)%Z ->
        resp_error_body response <> Some JNull ->
        (resp_status response = 429 \/ is_Some (message_text response) ->
         exists msg,
           fst (generateContent options w)
           = Throw (GeminiApiError (resp_status response) msg))
        /\ (resp_status response <> 429 ->
            message_text response = None ->
            fst (generateContent options w)
            = Throw (TypeError "Cannot convert object to primitive value"))).
Proof.
  split; [|split].
  - intros why Hremote. unfold generateContent, bind, fetch. now rewrite Hremote.
  - intros response Hremote Hstatus.
    assert (Hok : resp_ok response = true).
    { unfold resp_ok. apply andb_true_intro. split; apply Z.leb_le; lia. }
    unfold generateContent, bind, fetch. rewrite Hremote, Hok. cbn [negb].
    now destruct (resp_payload response).
  - intros response Hremote Hstatus Hbody.
    assert (Hok : resp_ok response = false).
    { unfold resp_ok. apply andb_false_iff.
      destruct (Z.leb_spec 200 (resp_status response)); [|now left].
      destruct (Z.leb_spec (resp_status response) 299); [|now right]. lia. }
    rewrite (generateContent_non2xx options w response Hremote Hok Hbody). split.
    + intros Hprintable. destruct (failure_for_status response Hprintable) as (m & ->).
      eauto.
    + intros Hs Htext. unfold failure_for.
      destruct (Z.eqb_spec (resp_status response) 429); [contradiction|].
      now rewrite Htext.
Qed.

End Outcomes.

(** ** The further properties on concrete calls *)

(** A composition of two paths passes the schema within its bounds. *)
Lemma schemas_validate_witness :
  exists a,
    compose_images_schema (compose_call ["/a.png"; "/b.png"] "blend" flash) = Some a
    /\ (1 <= length (c_image_paths a) <= 14)%nat.
Proof.
  assert (Hschema : compose_images_schema (compose_call ["/a.png"; "/b.png"] "blend" flash)
                    = Some (mkComposeArgs ["/a.png"; "/b.png"] "blend" flash "1:1" "1K" "."))
    by (vm_compute; reflexivity).
  eexists. split; [exact Hschema|].
  exact (proj1 (proj1 (proj2 (proj2 schemas_validate)) _ _ Hschema)).
Defined.

(** A prompt and a key the schema does not know. *)
Lemma schemas_default_witness :
  generate_image_schema (JObj [("prompt", JStr "a cat"); ("seed", JNum 7)]) = Some cat_call.
Proof.
  refine (proj1 (schemas_default [("prompt", JStr "a cat"); ("seed", JNum 7)] "a cat" _)
            eq_refl eq_refl eq_refl eq_refl eq_refl).
  discriminate.
Defined.

(** The request of a call that gives only its prompt. *)
Lemma tool_requests_imageConfig_witness :
  build_generationConfig (generate_options cat_call) = full_config "1:1" "1K".
Proof.
  refine (proj1 tool_requests_imageConfig (JObj [("prompt", JStr "a cat")]) cat_call _).
  vm_compute. reflexivity.
Defined.

(** Two images of different kinds, composed while the network is down. *)
Lemma compose_images_parts_in_order_witness :
  sent (snd (compose_images (rt := Posix.runtime)
               (mkComposeArgs ["/photos/cat.JPG"; "scan.tiff"] "blend" pro "1:1" "1K" ".")
               world_with_images))
  = [build_request (rt := Posix.runtime)
       (mkOptions pro
          [mkPart None (Some (mkInlineData "image/jpeg" "Zm9vYmFy"));
           mkPart None (Some (mkInlineData "image/png" "Zm8="));
           mkPart (Some "blend") None]
          ["TEXT"; "IMAGE"] (Some "1:1") (Some "1K"))].
Proof.
  refine (proj1 (compose_images_parts_in_order (rt := Posix.runtime)
                   (mkComposeArgs ["/photos/cat.JPG"; "scan.tiff"] "blend" pro "1:1" "1K" ".")
                   world_with_images
                   [mkImageData "Zm9vYmFy" "image/jpeg"; mkImageData "Zm8=" "image/png"] _)).
  vm_compute. reflexivity.
Defined.

(** The second of two source images does not exist; the source image of
    an edit is a directory. *)
Lemma unreadable_image_sends_nothing_witness :
  compose_images (rt := Posix.runtime) compose_two (world_with_cat (ok_reply image_only))
  = (Return (toolError
       "Failed to compose images: ENOENT: no such file or directory, open '/photos/dog.png'"),
     world_with_cat (ok_reply image_only))
  /\ edit_image (rt := Posix.runtime)
       (mkEditArgs "/photos" "add sunglasses" flash None "1K" ".") world_with_directory
     = (Return (toolError
          "Failed to edit image: EISDIR: illegal operation on a directory, read"),
        world_with_directory).
Proof.
  split.
  - refine (proj1 (proj2 (proj2 (unreadable_image_sends_nothing (rt := Posix.runtime)
                                   (world_with_cat (ok_reply image_only)))))
              compose_two ["/photos/cat.png"] "/photos/dog.png" []
              (ENOENT "/photos/dog.png") eq_refl _ eq_refl).
    constructor; [reflexivity | constructor].
  - exact (proj1 (unreadable_image_sends_nothing (rt := Posix.runtime) world_with_directory)
             (mkEditArgs "/photos" "add sunglasses" flash None "1K" ".")
             (SystemError "EISDIR: illegal operation on a directory, read") eq_refl).
Defined.

(** A description request answered by an error descriptor alone. *)
Lemma describe_image_no_candidates_witness :
  describe_image (rt := Posix.runtime) describe_call (world_with_cat (ok_reply blocked))
  = (Return (toolError NO_DESCRIPTION),
     snd (generateContent (rt := Posix.runtime)
            (describe_options describe_call (mkImageData "Zm9v" "image/png"))
            (world_with_cat (ok_reply blocked)))).
Proof.
  refine (proj1 (describe_image_no_candidates (rt := Posix.runtime) describe_call
                   (world_with_cat (ok_reply blocked)) _
                   (mkImageData "Zm9v" "image/png") blocked _ _ eq_refl)).
  - vm_compute. reflexivity.
  - reflexivity.
Defined.

(** The same answer to a generation request. *)
Lemma image_handlers_error_descriptor_witness :
  generate_image (rt := Posix.runtime) cat_call (world_replying (ok_reply blocked))
  = (Return (toolError "Failed to generate image: blocked"),
     snd (generateContent (rt := Posix.runtime) (generate_options cat_call)
            (world_replying (ok_reply blocked)))).
Proof.
  refine (proj1 (image_handlers_error_descriptor (rt := Posix.runtime) blocked
                   (mkErrorDescriptor "blocked" (Some 403)) eq_refl eq_refl)
            cat_call (world_replying (ok_reply blocked)) _ _).
  reflexivity.
Defined.

(** An edit answered with a text only. *)
Lemma edit_compose_no_image_witness :
  edit_image (rt := Posix.runtime) edit_call (world_with_cat (ok_reply refusal))
  = (Return (toolError NO_IMAGE_EDIT),
     snd (edit_request (rt := Posix.runtime) edit_call (world_with_cat (ok_reply refusal)))).
Proof.
  refine (proj1 (edit_compose_no_image (rt := Posix.runtime) refusal eq_refl
                   (fun absurd => _))
            edit_call (world_with_cat (ok_reply refusal)) _ _).
  - reflexivity.
  - vm_compute. reflexivity.
Defined.

(** The service is out of quota. *)
Lemma handlers_http_error_witness :
  generate_image (rt := Posix.runtime) cat_call (world_replying rate_limited)
  = (Return (toolError ("Failed to generate image: " +:+ RATE_LIMIT_MESSAGE)),
     after_fetch (world_replying rate_limited)
       (build_request (rt := Posix.runtime) (generate_options cat_call))).
Proof.
  refine (proj1 (handlers_http_error (rt := Posix.runtime) (world_replying rate_limited)
                   rate_limited (fun req => eq_refl) eq_refl _) cat_call).
  discriminate.
Defined.


(** A 200 whose body is an error descriptor. *)
Lemma generateContent_outcomes_witness :
  fst (generateContent (rt := Posix.runtime) text_only_options
         (world_replying (ok_reply blocked)))
  = Return blocked.
Proof.
  refine (proj1 (proj2 (generateContent_outcomes (rt := Posix.runtime) text_only_options
                          (world_replying (ok_reply blocked))))
            (ok_reply blocked) eq_refl _).
  vm_compute. split; discriminate.
Defined.
